(** * albert: the process supervisor of [main.go]

    A shallow embedding of the supervisor core of [main.go] (the [Manager]
    type and its methods, the two goroutines launched by [StartApp], the
    health-check loop and [getAppOutputHandler]) together with the properties
    of the specification that concern it.

    Modelling conventions.
    - [Manager.apps] is a Go [map[string]*AppState].  The map itself is written
      only by [NewManager]; afterwards every [*AppState] that the code holds
      (the [app] captured by the goroutines, the snapshot of
      [RunHealthChecks]) was obtained from the map and so is identified by
      its key.  The shared store is therefore [gmap string AppState], and a
      pointer to a record is the name under which it is stored.
    - A [*exec.Cmd] is a pointer; the handle carries the identity of the
      allocation ([cmd_ptr]) and the [Process] field that [StopApp] reads.
    - Everything the operating system decides (whether the pipes and the spawn
      succeed, whether [Kill] succeeds, how the process exits, what is read
      from the pipe, what the HTTP endpoint answers, what time it is) is an
      explicit argument of the operation that observes it.
    - Each function below is one critical section of [m.mu] (or a sequence of
      them where the Go function takes the lock several times); concurrency
      is the interleaving of these functions, see [Action] and [run]. *)

From Stdlib Require Import ZArith Lia Ascii String List Strings.Byte.
From stdpp Require Import base gmap strings list fin_maps pretty.

Import ListNotations.
Open Scope string_scope.

(** ** Data model *)

(** [time.Time]; the zero value of the Go struct is [0]. *)
Definition Time := Z.

(** [type AppConfig struct] *)
Record AppConfig := mkAppConfig {
  Name : string;
  Path : string;
  Args : list string;
  HealthURL : string
}.

(** [*exec.Cmd]: the identity of the allocation and the [Process] field
    ([nil] until [cmd.Start] has succeeded). *)
Record exec_Cmd := mkCmd {
  cmd_ptr : nat;
  Process : option nat
}.

Global Instance exec_Cmd_eq_dec : EqDecision exec_Cmd.
Proof. solve_decision. Defined.

(** [type AppState struct].  [Cmd] is [None] for the [nil] pointer;
    [OutputBuffer] is the unread content of the [bytes.Buffer]; [OutputChan]
    is the content of the buffered channel, oldest chunk first. *)
Record AppState := mkAppState {
  Config : AppConfig;
  Cmd : option exec_Cmd;
  Running : bool;
  HealthStatus : string;
  HealthLastCheck : Time;
  OutputBuffer : list byte;
  OutputChan : list (list byte)
}.

(** [type Manager struct]; the mutex is the atomicity of the functions below. *)
Record Manager := mkManager {
  apps : gmap string AppState
}.

(** Capacity of [make(chan string, 100)]. *)
Definition OutputChanCap : nat := 100.

(** ** Results and errors *)

(** The errors built with [fmt.Errorf] in [StartApp] and [StopApp]; the
    [cause] is the text of the wrapped error. *)
Inductive Error :=
| ErrNotFound (appName : string)
| ErrAlreadyRunning (appName : string)
| ErrStdoutPipe (appName cause : string)
| ErrStderrPipe (appName cause : string)
| ErrStart (appName cause : string)
| ErrNotRunning (appName : string)
| ErrKill (appName cause : string).

(** The text of the Go error value. *)
Definition Error_string (e : Error) : string :=
  match e with
  | ErrNotFound n => "app " ++ n ++ " not found"
  | ErrAlreadyRunning n => "app " ++ n ++ " is already running"
  | ErrStdoutPipe n c => "failed to get stdout pipe for " ++ n ++ ": " ++ c
  | ErrStderrPipe n c => "failed to get stderr pipe for " ++ n ++ ": " ++ c
  | ErrStart n c => "failed to start app " ++ n ++ ": " ++ c
  | ErrNotRunning n => "app " ++ n ++ " is not running"
  | ErrKill n c => "failed to kill app " ++ n ++ ": " ++ c
  end.

(** The taxonomy of the specification. *)
Inductive ErrorKind :=
  NotFound | AlreadyRunning | NotRunning | LaunchFailure | SignalFailure.

Definition kind (e : Error) : ErrorKind :=
  match e with
  | ErrNotFound _ => NotFound
  | ErrAlreadyRunning _ => AlreadyRunning
  | ErrStdoutPipe _ _ | ErrStderrPipe _ _ | ErrStart _ _ => LaunchFailure
  | ErrNotRunning _ => NotRunning
  | ErrKill _ _ => SignalFailure
  end.

(** The value a method returns: [Ok] for a [nil] error. *)
Inductive Res (A : Type) :=
| Ok (a : A)
| Fail (e : Error).
Arguments Ok {A} a.
Arguments Fail {A} e.

(** The goroutines a successful [StartApp] launches.  Both capture [app]
    (here: its name); the exit waiter also captures [cmd]. *)
Inductive Task :=
| ReaderTask (appName : string)
| WaiterTask (appName : string) (cmd : exec_Cmd).

(** ** What the operating system answers *)

(** [cmd.StdoutPipe()], [cmd.StderrPipe()] and [cmd.Start()] in the order the
    code calls them: the first error, or the address [ptr] of the [exec.Cmd]
    that [exec.Command] allocated and the process [cmd.Start] stored in it.
    An address is not handed out again while the object is referenced, and
    the exit waiter of a launch keeps its [cmd]: where it matters, the
    statements below ask that [ptr] differs from the handle of the waiter. *)
Inductive SpawnOutcome :=
| StdoutPipeError (cause : string)
| StderrPipeError (cause : string)
| StartError (cause : string)
| Spawned (ptr : nat) (pid : nat).

(** [Process.Kill()]: [None] for a [nil] error. *)
Definition KillOutcome := option string.

(** [cmd.Wait()]: [None] for a [nil] error. *)
Definition WaitOutcome := option string.

(** [client.Get(url)]: an error, or a response with its status code. *)
Inductive HttpOutcome :=
| HttpError (msg : string)
| HttpResponse (StatusCode : Z).

(** ** Construction *)

(** The record [NewManager] builds for one configuration. *)
Definition newAppState (cfg : AppConfig) : AppState :=
  {| Config := cfg;
     Cmd := None;
     Running := false;
     HealthStatus := "Unknown";
     HealthLastCheck := 0%Z;
     OutputBuffer := [];
     OutputChan := [] |}.

(** [func NewManager(configs []AppConfig) *Manager]: the loop assigns
    [m.apps[cfg.Name]] for each configuration in order. *)
Definition NewManager (configs : list AppConfig) : Manager :=
  {| apps := fold_left (fun a cfg => <[Name cfg := newAppState cfg]> a)
                       configs ∅ |}.

(** ** Start and stop *)

(** Assignment through the [app] pointer. *)
Definition store (appName : string) (app : AppState) (m : Manager) : Manager :=
  {| apps := <[appName := app]> (apps m) |}.

(** [func (m *Manager) StartApp(appName string) error] *)
Definition StartApp (m : Manager) (appName : string) (os : SpawnOutcome)
  : Manager * Res (list Task) :=
  match apps m !! appName with
  | None => (m, Fail (ErrNotFound appName))
  | Some app =>
    if Running app then (m, Fail (ErrAlreadyRunning appName))
    else
      match os with
      | StdoutPipeError c => (m, Fail (ErrStdoutPipe appName c))
      | StderrPipeError c => (m, Fail (ErrStderrPipe appName c))
      | StartError c => (m, Fail (ErrStart appName c))
      | Spawned ptr pid =>
        let cmd := {| cmd_ptr := ptr; Process := Some pid |} in
        let app' := {| Config := Config app;
                       Cmd := Some cmd;
                       Running := true;
                       HealthStatus := HealthStatus app;
                       HealthLastCheck := HealthLastCheck app;
                       OutputBuffer := [];
                       OutputChan := OutputChan app |} in
        (store appName app' m,
         Ok [ReaderTask appName; WaiterTask appName cmd])
      end
  end.

(** [app.Cmd == nil || app.Cmd.Process == nil] *)
Definition noLiveHandle (app : AppState) : bool :=
  match Cmd app with
  | None => true
  | Some cmd => match Process cmd with None => true | Some _ => false end
  end.

(** [func (m *Manager) StopApp(appName string) error] *)
Definition StopApp (m : Manager) (appName : string) (kill : KillOutcome)
  : Manager * Res unit :=
  match apps m !! appName with
  | None => (m, Fail (ErrNotFound appName))
  | Some app =>
    if negb (Running app) || noLiveHandle app
    then (m, Fail (ErrNotRunning appName))
    else
      match kill with
      | Some c => (m, Fail (ErrKill appName c))
      | None =>
        let app' := {| Config := Config app;
                       Cmd := None;
                       Running := false;
                       HealthStatus := "Stopped";
                       HealthLastCheck := HealthLastCheck app;
                       OutputBuffer := OutputBuffer app;
                       OutputChan := OutputChan app |} in
        (store appName app' m, Ok tt)
      end
  end.

(** Write through the [app] pointer: the record stored under [appName] is
    replaced by [f] of itself. *)
Definition update (appName : string) (f : AppState -> AppState) (m : Manager)
  : Manager :=
  {| apps := alter f appName (apps m) |}.

(** ** The output reader goroutine *)

(** Size above which the buffer is trimmed, and the size it is trimmed to. *)
Definition OutputBufferCap : nat := 4096.
Definition OutputBufferKeep : nat := 2048.

(** [app.OutputBuffer.WriteString(line)] followed by the trim:
    [Bytes()[Len()-2048:]] when [Len() > 4096]. *)
Definition writeOutput (buf line : list byte) : list byte :=
  let b := (buf ++ line)%list in
  if (OutputBufferCap <? length b)%nat
  then drop (length b - OutputBufferKeep) b
  else b.

(** [select { case app.OutputChan <- line: default: }] *)
Definition sendOutput (ch : list (list byte)) (line : list byte)
  : list (list byte) :=
  if (length ch <? OutputChanCap)%nat then (ch ++ [line])%list else ch.

(** The body of [if n > 0] on the record. *)
Definition captureWrite (line : list byte) (app : AppState) : AppState :=
  {| Config := Config app;
     Cmd := Cmd app;
     Running := Running app;
     HealthStatus := HealthStatus app;
     HealthLastCheck := HealthLastCheck app;
     OutputBuffer := writeOutput (OutputBuffer app) line;
     OutputChan := sendOutput (OutputChan app) line |}.

(** One [reader.Read(buf)]: the bytes [buf[:n]] and whether [err != nil]. *)
Record ReadResult := mkReadResult {
  read_data : list byte;
  read_err : bool
}.

(** One iteration of the reader's loop; the second component tells whether
    the loop goes on. *)
Definition readerIteration (m : Manager) (appName : string) (r : ReadResult)
  : Manager * bool :=
  let m' := if (0 <? length (read_data r))%nat
            then update appName (captureWrite (read_data r)) m
            else m in
  (m', negb (read_err r)).

(** The reader goroutine on the successive results of [Read]. *)
Fixpoint readerTask (m : Manager) (appName : string) (reads : list ReadResult)
  : Manager :=
  match reads with
  | [] => m
  | r :: reads' =>
    let '(m', continue) := readerIteration m appName r in
    if continue then readerTask m' appName reads' else m'
  end.

(** ** The exit waiter goroutine *)

(** The critical section after [cmd.Wait()] on the record. *)
Definition waiterWrite (cmd : exec_Cmd) (err : WaitOutcome) (app : AppState)
  : AppState :=
  if decide (Cmd app = Some cmd) then
    {| Config := Config app;
       Cmd := None;
       Running := false;
       HealthStatus := match err with
                       | Some cause => "Exited: " ++ cause
                       | None => "Stopped"
                       end;
       HealthLastCheck := HealthLastCheck app;
       OutputBuffer := OutputBuffer app;
       OutputChan := OutputChan app |}
  else app.

Definition exitWaiter (m : Manager) (appName : string) (cmd : exec_Cmd)
  (err : WaitOutcome) : Manager :=
  update appName (waiterWrite cmd err) m.

(** Running one of the goroutines of a launch to its end. *)
Definition runTask (m : Manager) (t : Task) (reads : list ReadResult)
  (err : WaitOutcome) : Manager :=
  match t with
  | ReaderTask appName => readerTask m appName reads
  | WaiterTask appName cmd => exitWaiter m appName cmd err
  end.

(** ** Health checks *)

(** Network calls issued, in order. *)
Inductive NetCall := HttpGet (appName : string) (url : string).

(** The status [CheckAppHealth] derives from the answer to the GET. *)
Definition probeStatus (get : HttpOutcome) : string :=
  match get with
  | HttpError msg => "Error: " ++ msg
  | HttpResponse code =>
    if (code =? 200)%Z then "Healthy"
    else "Degraded (" ++ pretty code ++ ")"
  end.

Definition setHealth (status : string) (now : Time) (app : AppState)
  : AppState :=
  {| Config := Config app;
     Cmd := Cmd app;
     Running := Running app;
     HealthStatus := status;
     HealthLastCheck := now;
     OutputBuffer := OutputBuffer app;
     OutputChan := OutputChan app |}.

(** [func (m *Manager) CheckAppHealth(app *AppState)]: [get] is the answer
    to [client.Get] should it be issued, [now] the value of [time.Now()]. *)
Definition CheckAppHealth (m : Manager) (appName : string)
  (get : HttpOutcome) (now : Time) : Manager * list NetCall :=
  match apps m !! appName with
  | None => (m, [])
  | Some app =>
    if String.eqb (HealthURL (Config app)) ""
    then (store appName (setHealth "N/A" now app) m, [])
    else (store appName (setHealth (probeStatus get) now app) m,
          [HttpGet appName (HealthURL (Config app))])
  end.

(** The body of the inner loop of [RunHealthChecks] for one [app]. *)
Definition healthCheckApp (m : Manager) (appName : string)
  (get : HttpOutcome) (now : Time) : Manager * list NetCall :=
  match apps m !! appName with
  | None => (m, [])
  | Some app =>
    if Running app then CheckAppHealth m appName get now
    else (store appName (setHealth "Stopped" now app) m, [])
  end.

(** What that body does to the record it is given. *)
Definition healthCheckRecord (get : HttpOutcome) (now : Time) (app : AppState)
  : AppState :=
  if Running app then
    if String.eqb (HealthURL (Config app)) ""
    then setHealth "N/A" now app
    else setHealth (probeStatus get) now app
  else setHealth "Stopped" now app.

(** The network calls that body issues for the record it is given. *)
Definition healthCheckCalls (appName : string) (app : AppState)
  : list NetCall :=
  if Running app then
    if String.eqb (HealthURL (Config app)) "" then []
    else [HttpGet appName (HealthURL (Config app))]
  else [].

(** One tick of [RunHealthChecks].  [snapshot] is [appsToHealthCheck] in the
    order the iteration over the map produced it; [get] and [now] give, for
    each app, the answer of its endpoint and the time of its write. *)
Fixpoint healthCheckAll (m : Manager) (snapshot : list string)
  (get : string -> HttpOutcome) (now : string -> Time)
  : Manager * list NetCall :=
  match snapshot with
  | [] => (m, [])
  | appName :: rest =>
    let '(m1, calls1) := healthCheckApp m appName (get appName) (now appName) in
    let '(m2, calls2) := healthCheckAll m1 rest get now in
    (m2, (calls1 ++ calls2)%list)
  end.

(** The orders in which a tick may visit the records of [m]. *)
Definition isSnapshot (m : Manager) (snapshot : list string) : Prop :=
  snapshot ≡ₚ (map_to_list (apps m)).*1.

(** ** Output tail *)

Definition newline : byte := x0a.

(** [bytes.Split(s, []byte("\n"))] *)
Fixpoint Split (s : list byte) : list (list byte) :=
  match s with
  | [] => [[]]
  | c :: s' =>
    if Byte.eqb c newline then [] :: Split s'
    else match Split s' with
         | l :: ls => (c :: l) :: ls
         | [] => [[c]]
         end
  end.

(** [bytes.Join(lines, []byte("\n"))] *)
Fixpoint Join (lines : list (list byte)) : list byte :=
  match lines with
  | [] => []
  | [l] => l
  | l :: ls => (l ++ newline :: Join ls)%list
  end.

(** Number of lines [getAppOutputHandler] returns at most. *)
Definition TailLimit : nat := 50.

(** The body of [getAppOutputHandler] after the lookup. *)
Definition tailOutput (output : list byte) : list byte :=
  let lines := Split output in
  let numLines := length lines in
  let start := if (TailLimit <? numLines)%nat then numLines - TailLimit else 0 in
  Join (drop start lines).

(** What the handler answers: status code and body. *)
Record Reply := mkReply {
  reply_status : nat;
  reply_body : list byte
}.

(** [func getAppOutputHandler(mgr *Manager, w, r)]; [appName] is the rest of
    the URL path. *)
Definition getAppOutputHandler (mgr : Manager) (appName : string) : Reply :=
  match apps mgr !! appName with
  | None => {| reply_status := 404;
               reply_body := list_byte_of_string "App not found
" |}
  | Some app => {| reply_status := 200;
                   reply_body := tailOutput (OutputBuffer app) |}
  end.

(** ** Interleavings *)

(** The critical sections that touch the store. *)
Inductive Action :=
| ActStart (appName : string) (os : SpawnOutcome)
| ActStop (appName : string) (kill : KillOutcome)
| ActOutput (appName : string) (line : list byte)
| ActExit (appName : string) (cmd : exec_Cmd) (err : WaitOutcome)
| ActHealth (appName : string) (get : HttpOutcome) (now : Time).

Definition step (m : Manager) (a : Action) : Manager :=
  match a with
  | ActStart appName os => fst (StartApp m appName os)
  | ActStop appName kill => fst (StopApp m appName kill)
  | ActOutput appName line => update appName (captureWrite line) m
  | ActExit appName cmd err => exitWaiter m appName cmd err
  | ActHealth appName get now => fst (healthCheckApp m appName get now)
  end.

Definition run (m : Manager) (acts : list Action) : Manager :=
  fold_left step acts m.

(** Every output buffer of the store is within the cap. *)
Definition buffersBounded (m : Manager) : Prop :=
  forall appName app,
    apps m !! appName = Some app ->
    length (OutputBuffer app) <= OutputBufferCap.

(** ** Sample data *)

Definition cfgEcho : AppConfig :=
  {| Name := "Echo"; Path := "/bin/echo"; Args := ["hi"]; HealthURL := "" |}.

Definition cfgWeb : AppConfig :=
  {| Name := "Web"; Path := "/srv/web"; Args := ["--port"; "8080"];
     HealthURL := "http://127.0.0.1:8080/health" |}.

(** A second configuration under the name of [cfgEcho]. *)
Definition cfgEchoAlt : AppConfig :=
  {| Name := "Echo"; Path := "/usr/bin/printf"; Args := ["%s"; "hi"];
     HealthURL := "http://127.0.0.1:9/health" |}.

(** A manager with two idle apps, and the same after [Echo] was started. *)
Definition mIdle : Manager := NewManager [cfgEcho; cfgWeb].
Definition mEchoUp : Manager := fst (StartApp mIdle "Echo" (Spawned 1 100)).

(** The error of [Process.Kill] on a process that was already reaped. *)
Definition killFailed : KillOutcome := Some "os: process already finished".

(** Sixty lines of output, [1] to [60], separated by newlines, read in one
    chunk by the reader of [Echo]. *)
Definition numeral (n : nat) : list byte := list_byte_of_string (pretty n).
Definition sixtyLines : list byte := Join (map numeral (seq 1 60)).
Definition mEchoSixty : Manager :=
  run mIdle [ActStart "Echo" (Spawned 1 100); ActOutput "Echo" sixtyLines].

(** A buffer close to the cap and a chunk that takes it over. *)
Definition bufNearCap : list byte := repeat x41 4000.
Definition chunkOver : list byte := repeat x42 1000.

(** [Echo] stopped, then started again; [cmdFirst] is the handle of the first
    launch, the one its exit waiter tracks. *)
Definition mEchoDown : Manager := fst (StopApp mEchoUp "Echo" None).
Definition mEchoAgain : Manager := fst (StartApp mEchoDown "Echo" (Spawned 2 200)).
Definition cmdFirst : exec_Cmd := {| cmd_ptr := 1; Process := Some 100 |}.

(** [Echo] stopped and [Web] running, and the endpoints and clock of a tick. *)
Definition mWebUp : Manager := fst (StartApp mEchoDown "Web" (Spawned 3 300)).
Definition getOk : string -> HttpOutcome := fun _ => HttpResponse 200.
Definition nowAt : string -> Time := fun _ => 1700000000%Z.

(** ** The control handler *)

(** The characters that cannot be written inside a literal. *)
Definition nl : string := String (ascii_of_nat 10) "".
Definition dquote : string := String (ascii_of_nat 34) "".

(** [http.Error(w, msg, code)]: the status and [msg] followed by a newline. *)
Definition httpError (msg : string) (code : nat) : Reply :=
  {| reply_status := code; reply_body := list_byte_of_string (msg ++ nl) |}.

(** [path[n:]] on the bytes of a string; [None] when [n] is beyond the end
    and the slice expression panics. *)
Definition pathAfter (n : nat) (path : string) : option string :=
  if (n <=? String.length path)%nat
  then Some (String.substring n (String.length path - n) path)
  else None.

(** What a run of [controlAppHandler] leaves: the store, the goroutines
    launched, and the answer ([None] when the handler panicked). *)
Record ControlResult := mkControlResult {
  ctl_store : Manager;
  ctl_tasks : list Task;
  ctl_reply : option Reply
}.

(** The end of [controlAppHandler], once [err] is known. *)
Definition controlReply (action appName : string) (err : option Error)
  : Reply :=
  match err with
  | Some e =>
    httpError ("Failed to " ++ action ++ " app " ++ appName ++ ": "
               ++ Error_string e) 500
  | None =>
    {| reply_status := 200;
       reply_body :=
         list_byte_of_string
           ("{" ++ dquote ++ "status" ++ dquote ++ ": " ++ dquote ++ "success"
            ++ dquote ++ ", " ++ dquote ++ "message" ++ dquote ++ ": "
            ++ dquote ++ action ++ " app " ++ appName ++ dquote ++ "}") |}
  end.

(** [func controlAppHandler(mgr *Manager, w, r)]: [method] is [r.Method],
    [path] is [r.URL.Path] and [action] is [r.URL.Query().Get("action")]. *)
Definition controlAppHandler (mgr : Manager) (method path action : string)
  (os : SpawnOutcome) (kill : KillOutcome) : ControlResult :=
  match pathAfter (String.length "/api/app/") path with
  | None => {| ctl_store := mgr; ctl_tasks := []; ctl_reply := None |}
  | Some appName =>
    if String.eqb method "POST" then
      if String.eqb action "start" then
        match StartApp mgr appName os with
        | (m', Ok tasks) =>
          {| ctl_store := m'; ctl_tasks := tasks;
             ctl_reply := Some (controlReply action appName None) |}
        | (m', Fail e) =>
          {| ctl_store := m'; ctl_tasks := [];
             ctl_reply := Some (controlReply action appName (Some e)) |}
        end
      else if String.eqb action "stop" then
        match StopApp mgr appName kill with
        | (m', Ok _) =>
          {| ctl_store := m'; ctl_tasks := [];
             ctl_reply := Some (controlReply action appName None) |}
        | (m', Fail e) =>
          {| ctl_store := m'; ctl_tasks := [];
             ctl_reply := Some (controlReply action appName (Some e)) |}
        end
      else
        {| ctl_store := mgr; ctl_tasks := [];
           ctl_reply :=
             Some (httpError "Invalid action. Must be 'start' or 'stop'." 400) |}
    else
      {| ctl_store := mgr; ctl_tasks := [];
         ctl_reply := Some (httpError "Method not allowed" 405) |}
  end.

(** [getAppOutputHandler] from the path of the request: [None] when the
    slice [r.URL.Path[len("/api/output/"):]] panics. *)
Definition getAppOutputRoute (mgr : Manager) (path : string) : option Reply :=
  match pathAfter (String.length "/api/output/") path with
  | None => None
  | Some appName => Some (getAppOutputHandler mgr appName)
  end.

(** ** Critical sections, record by record *)

(** The name of the record a critical section works on. *)
Definition actName (a : Action) : string :=
  match a with
  | ActStart appName _ => appName
  | ActStop appName _ => appName
  | ActOutput appName _ => appName
  | ActExit appName _ _ => appName
  | ActHealth appName _ _ => appName
  end.

(** What a critical section makes of the record it finds. *)
Definition actRecord (a : Action) (app : AppState) : AppState :=
  match a with
  | ActStart _ (Spawned ptr pid) =>
    if Running app then app
    else {| Config := Config app;
            Cmd := Some {| cmd_ptr := ptr; Process := Some pid |};
            Running := true;
            HealthStatus := HealthStatus app;
            HealthLastCheck := HealthLastCheck app;
            OutputBuffer := [];
            OutputChan := OutputChan app |}
  | ActStart _ _ => app
  | ActStop _ None =>
    if negb (Running app) || noLiveHandle app then app
    else {| Config := Config app;
            Cmd := None;
            Running := false;
            HealthStatus := "Stopped";
            HealthLastCheck := HealthLastCheck app;
            OutputBuffer := OutputBuffer app;
            OutputChan := OutputChan app |}
  | ActStop _ (Some _) => app
  | ActOutput _ line => captureWrite line app
  | ActExit _ cmd err => waiterWrite cmd err app
  | ActHealth _ get now => healthCheckRecord get now app
  end.

(** [Running] is set exactly when a handle with a process is stored. *)
Definition liveWhenRunning (app : AppState) : Prop :=
  Running app = negb (noLiveHandle app).

(** The chunks a reader goroutine writes: those of the reads up to the first
    one that reports an error, the empty ones left out. *)
Fixpoint chunksRead (reads : list ReadResult) : list (list byte) :=
  match reads with
  | [] => []
  | r :: reads' =>
    ((if (0 <? length (read_data r))%nat then [read_data r] else [])
     ++ (if read_err r then [] else chunksRead reads'))%list
  end.

(** ** Stores up to the clock *)

(** A critical section of the health check stores [time.Now()] as read
    while it holds the lock, so the time it stores depends on when it runs.
    [reclock t a] is the section [a] run at a moment when the clock reads
    [t]; the other sections do not read the clock. *)
Definition reclock (t : Time) (a : Action) : Action :=
  match a with
  | ActHealth appName get _ => ActHealth appName get t
  | _ => a
  end.

Definition readsClock (a : Action) : bool :=
  match a with
  | ActHealth _ _ _ => true
  | _ => false
  end.



(** ** More sample data *)

(** A manager whose app [Echo] has produced 150 chunks of output. *)
Definition mEchoChatty : Manager :=
  run mEchoUp (repeat (ActOutput "Echo" (numeral 7)) 150).

(** Reads of a pipe: data, an empty read, data with end of stream, and a
    read that the loop never makes. *)
Definition readsSample : list ReadResult :=
  [mkReadResult (numeral 1) false; mkReadResult [] false;
   mkReadResult (numeral 2) true; mkReadResult (numeral 3) false].

(** * Properties *)

(** ** Start and stop *)

Section StartStop.
Variable m : Manager.
Variable appName : string.

Lemma StartApp_unknown os :
  apps m !! appName = None ->
  StartApp m appName os = (m, Fail (ErrNotFound appName)).
Proof. intros H. unfold StartApp. now rewrite H. Qed.

Lemma StartApp_running os app :
  apps m !! appName = Some app -> Running app = true ->
  StartApp m appName os = (m, Fail (ErrAlreadyRunning appName)).
Proof. intros H Hr. unfold StartApp. now rewrite H, Hr. Qed.

Lemma StartApp_spawned ptr pid app :
  apps m !! appName = Some app -> Running app = false ->
  StartApp m appName (Spawned ptr pid) =
    (store appName
       {| Config := Config app;
          Cmd := Some {| cmd_ptr := ptr; Process := Some pid |};
          Running := true;
          HealthStatus := HealthStatus app;
          HealthLastCheck := HealthLastCheck app;
          OutputBuffer := [];
          OutputChan := OutputChan app |} m,
     Ok [ReaderTask appName;
         WaiterTask appName {| cmd_ptr := ptr; Process := Some pid |}]).
Proof. intros H Hr. unfold StartApp. now rewrite H, Hr. Qed.

(** A call that returns an error returns the store it was given. *)
Lemma StartApp_Fail_unchanged os e :
  snd (StartApp m appName os) = Fail e -> fst (StartApp m appName os) = m.
Proof.
  unfold StartApp.
  destruct (apps m !! appName) as [app|]; [|reflexivity].
  destruct (Running app); [reflexivity|].
  destruct os; simpl; try reflexivity. discriminate.
Qed.

(** A successful call had a record that was not running, and the spawn
    succeeded. *)
Lemma StartApp_Ok_inv os m' tasks :
  StartApp m appName os = (m', Ok tasks) ->
  exists app ptr pid,
    apps m !! appName = Some app /\ Running app = false /\
    os = Spawned ptr pid.
Proof.
  unfold StartApp.
  destruct (apps m !! appName) as [app|]; [|discriminate].
  destruct (Running app) eqn:Hr; [discriminate|].
  destruct os; try discriminate.
  intros _. now exists app, ptr, pid.
Qed.

Lemma StopApp_unknown kill :
  apps m !! appName = None ->
  StopApp m appName kill = (m, Fail (ErrNotFound appName)).
Proof. intros H. unfold StopApp. now rewrite H. Qed.

Lemma StopApp_not_running kill app :
  apps m !! appName = Some app ->
  Running app = false \/ noLiveHandle app = true ->
  StopApp m appName kill = (m, Fail (ErrNotRunning appName)).
Proof.
  intros H Hn. unfold StopApp. rewrite H.
  destruct Hn as [-> | ->]; [reflexivity|].
  now rewrite orb_true_r.
Qed.

Lemma StopApp_killed app :
  apps m !! appName = Some app ->
  Running app = true -> noLiveHandle app = false ->
  StopApp m appName None =
    (store appName
       {| Config := Config app;
          Cmd := None;
          Running := false;
          HealthStatus := "Stopped";
          HealthLastCheck := HealthLastCheck app;
          OutputBuffer := OutputBuffer app;
          OutputChan := OutputChan app |} m,
     Ok tt).
Proof. intros H Hr Hl. unfold StopApp. now rewrite H, Hr, Hl. Qed.

Lemma StopApp_kill_error app cause :
  apps m !! appName = Some app ->
  Running app = true -> noLiveHandle app = false ->
  StopApp m appName (Some cause) = (m, Fail (ErrKill appName cause)).
Proof. intros H Hr Hl. unfold StopApp. now rewrite H, Hr, Hl. Qed.

Lemma StopApp_Fail_unchanged kill e :
  snd (StopApp m appName kill) = Fail e -> fst (StopApp m appName kill) = m.
Proof.
  unfold StopApp.
  destruct (apps m !! appName) as [app|]; [|reflexivity].
  destruct (negb (Running app) || noLiveHandle app); [reflexivity|].
  destruct kill; simpl; [reflexivity | discriminate].
Qed.

Lemma StopApp_Ok_inv kill m' u :
  StopApp m appName kill = (m', Ok u) ->
  exists app,
    apps m !! appName = Some app /\ Running app = true /\
    noLiveHandle app = false /\ kill = None.
Proof.
  unfold StopApp.
  destruct (apps m !! appName) as [app|]; [|discriminate].
  destruct (Running app) eqn:Hr; [|discriminate].
  destruct (noLiveHandle app) eqn:Hl; [discriminate|].
  destruct kill; [discriminate|].
  intros _. now exists app.
Qed.
End StartStop.

Lemma lookup_store appName app m :
  apps (store appName app m) !! appName = Some app.
Proof. unfold store. simpl. apply lookup_insert_eq. Qed.

Lemma lookup_store_ne appName other app m :
  appName <> other -> apps (store appName app m) !! other = apps m !! other.
Proof. intros H. unfold store. simpl. now apply lookup_insert_ne. Qed.

(** C1.  [StartApp] on a name that is not in the map fails with NotFound; on
    a record whose [Running] flag is set it fails with AlreadyRunning; and
    otherwise, when the spawn succeeds, it returns success with [Running]
    set, the new handle stored and the output buffer empty. *)
Theorem StartApp_contract (m : Manager) (appName : string) :
  (forall os, apps m !! appName = None ->
     exists e, StartApp m appName os = (m, Fail e) /\ kind e = NotFound) /\
  (forall os app, apps m !! appName = Some app -> Running app = true ->
     exists e, StartApp m appName os = (m, Fail e) /\ kind e = AlreadyRunning) /\
  (forall ptr pid app, apps m !! appName = Some app -> Running app = false ->
     exists m' tasks app',
       StartApp m appName (Spawned ptr pid) = (m', Ok tasks) /\
       apps m' !! appName = Some app' /\
       Running app' = true /\
       Cmd app' = Some {| cmd_ptr := ptr; Process := Some pid |} /\
       OutputBuffer app' = []).
Proof.
  split; [|split].
  - intros os H. eexists. split; [now apply StartApp_unknown | reflexivity].
  - intros os app H Hr. eexists.
    split; [now apply (StartApp_running m appName os app) | reflexivity].
  - intros ptr pid app H Hr.
    rewrite (StartApp_spawned m appName ptr pid app H Hr).
    do 3 eexists. split; [reflexivity|].
    split; [apply lookup_store|]. simpl. auto.
Qed.

Lemma StartApp_contract_witness :
  (exists e, StartApp mIdle "Nope" (Spawned 7 70) = (mIdle, Fail e) /\
             kind e = NotFound) /\
  (exists e, StartApp mEchoUp "Echo" (Spawned 7 70) = (mEchoUp, Fail e) /\
             kind e = AlreadyRunning) /\
  (exists m' tasks app',
     StartApp mIdle "Echo" (Spawned 1 100) = (m', Ok tasks) /\
     apps m' !! "Echo" = Some app' /\
     Running app' = true /\
     Cmd app' = Some {| cmd_ptr := 1; Process := Some 100 |} /\
     OutputBuffer app' = []).
Proof.
  split; [|split].
  - apply (proj1 (StartApp_contract mIdle "Nope")). vm_compute. reflexivity.
  - eapply (proj1 (proj2 (StartApp_contract mEchoUp "Echo"))).
    + vm_compute. reflexivity.
    + reflexivity.
  - eapply (proj2 (proj2 (StartApp_contract mIdle "Echo"))).
    + vm_compute. reflexivity.
    + reflexivity.
Defined.

(** C2, as stated, fails when [Process.Kill] reports an error: [Echo] is
    known, running and has a live handle, yet after the call it is still
    running, its status is not "Stopped" and its handle is still stored. *)
Lemma StopApp_kill_error_counterexample :
  exists app app',
    apps mEchoUp !! "Echo" = Some app /\
    Running app = true /\ noLiveHandle app = false /\
    snd (StopApp mEchoUp "Echo" killFailed) =
      Fail (ErrKill "Echo" "os: process already finished") /\
    apps (fst (StopApp mEchoUp "Echo" killFailed)) !! "Echo" = Some app' /\
    Running app' <> false /\
    HealthStatus app' <> "Stopped" /\
    Cmd app' <> None.
Proof.
  do 2 eexists.
  split; [vm_compute; reflexivity|].
  split; [reflexivity|]. split; [reflexivity|].
  split; [vm_compute; reflexivity|].
  split; [vm_compute; reflexivity|].
  repeat split; discriminate.
Qed.

(** C2 (amended).  [StopApp] fails with NotFound on an unknown name and with
    NotRunning when [Running] is false or no live handle is stored.
    Otherwise, when the kill signal is delivered, the store it returns has
    [Running] false, status "Stopped" and no handle; when [Kill] reports an
    error it fails with SignalFailure and returns the store unchanged.  The
    result does not depend on the exit of the process. *)
Theorem StopApp_contract (m : Manager) (appName : string) :
  (forall kill, apps m !! appName = None ->
     exists e, StopApp m appName kill = (m, Fail e) /\ kind e = NotFound) /\
  (forall kill app, apps m !! appName = Some app ->
     Running app = false \/ noLiveHandle app = true ->
     exists e, StopApp m appName kill = (m, Fail e) /\ kind e = NotRunning) /\
  (forall app, apps m !! appName = Some app ->
     Running app = true -> noLiveHandle app = false ->
     exists m' app',
       StopApp m appName None = (m', Ok tt) /\
       apps m' !! appName = Some app' /\
       Running app' = false /\
       HealthStatus app' = "Stopped" /\
       Cmd app' = None) /\
  (forall app cause, apps m !! appName = Some app ->
     Running app = true -> noLiveHandle app = false ->
     exists e, StopApp m appName (Some cause) = (m, Fail e) /\
               kind e = SignalFailure).
Proof.
  repeat apply conj.
  - intros kill H. eexists. split; [now apply StopApp_unknown | reflexivity].
  - intros kill app H Hn. eexists.
    split; [now apply (StopApp_not_running m appName kill app) | reflexivity].
  - intros app H Hr Hl. rewrite (StopApp_killed m appName app H Hr Hl).
    do 2 eexists. split; [reflexivity|].
    split; [apply lookup_store|]. simpl. auto.
  - intros app cause H Hr Hl. eexists.
    split; [now apply (StopApp_kill_error m appName app) | reflexivity].
Qed.

Lemma StopApp_contract_witness :
  (exists e, StopApp mIdle "Nope" None = (mIdle, Fail e) /\
             kind e = NotFound) /\
  (exists e, StopApp mIdle "Echo" None = (mIdle, Fail e) /\
             kind e = NotRunning) /\
  (exists m' app',
     StopApp mEchoUp "Echo" None = (m', Ok tt) /\
     apps m' !! "Echo" = Some app' /\
     Running app' = false /\ HealthStatus app' = "Stopped" /\
     Cmd app' = None) /\
  (exists e, StopApp mEchoUp "Echo" killFailed = (mEchoUp, Fail e) /\
             kind e = SignalFailure).
Proof.
  repeat apply conj.
  - apply (proj1 (StopApp_contract mIdle "Nope")). vm_compute. reflexivity.
  - eapply (proj1 (proj2 (StopApp_contract mIdle "Echo"))).
    + vm_compute. reflexivity.
    + left. reflexivity.
  - eapply (proj1 (proj2 (proj2 (StopApp_contract mEchoUp "Echo")))).
    + vm_compute. reflexivity.
    + reflexivity.
    + reflexivity.
  - eapply (proj2 (proj2 (proj2 (StopApp_contract mEchoUp "Echo")))).
    + vm_compute. reflexivity.
    + reflexivity.
    + reflexivity.
Defined.

(** C6.  A call of [StartApp] or [StopApp] that returns an error, whichever
    of NotFound, AlreadyRunning, NotRunning, LaunchFailure and SignalFailure
    it is, returns the store it was given: no field of any record is
    changed.  In particular a failed [StartApp] does not set [Running]: on a
    record that is not running the only failure is a launch failure and the
    record is found as it was, with [Running] false; whenever the failure is
    not AlreadyRunning, [Running] is false after it; and AlreadyRunning is
    returned only for a record that is running, which is left as it is. *)
Theorem failing_call_leaves_state (m : Manager) (appName : string) :
  (forall os e, snd (StartApp m appName os) = Fail e ->
     fst (StartApp m appName os) = m) /\
  (forall kill e, snd (StopApp m appName kill) = Fail e ->
     fst (StopApp m appName kill) = m) /\
  (forall os e app, snd (StartApp m appName os) = Fail e ->
     kind e <> AlreadyRunning ->
     apps (fst (StartApp m appName os)) !! appName = Some app ->
     Running app = false) /\
  (forall os e app, apps m !! appName = Some app -> Running app = false ->
     snd (StartApp m appName os) = Fail e ->
     kind e = LaunchFailure /\
     apps (fst (StartApp m appName os)) !! appName = Some app) /\
  (forall os e, snd (StartApp m appName os) = Fail e ->
     kind e = AlreadyRunning ->
     exists app,
       apps m !! appName = Some app /\ Running app = true /\
       apps (fst (StartApp m appName os)) !! appName = Some app).
Proof.
  repeat apply conj.
  - apply StartApp_Fail_unchanged.
  - apply StopApp_Fail_unchanged.
  - intros os e app. unfold StartApp.
    destruct (apps m !! appName) as [app0|] eqn:H; simpl.
    + destruct (Running app0) eqn:Hr; simpl.
      * intros [= <-]. simpl. congruence.
      * destruct os; simpl; intros He _; try discriminate;
          rewrite H; intros [= <-]; exact Hr.
    + rewrite H. discriminate.
  - intros os e app H Hr. unfold StartApp. rewrite H, Hr.
    destruct os; simpl; intros [= <-]; try (split; [reflexivity | exact H]).
  - intros os e. unfold StartApp.
    destruct (apps m !! appName) as [app0|] eqn:H; simpl.
    + destruct (Running app0) eqn:Hr; simpl.
      * intros _ _. exists app0. now rewrite H.
      * destruct os; simpl; intros [= <-]; discriminate.
    + intros [= <-]. discriminate.
Qed.

Lemma failing_call_leaves_state_witness :
  fst (StartApp mEchoUp "Echo" (Spawned 2 200)) = mEchoUp /\
  fst (StopApp mEchoUp "Echo" killFailed) = mEchoUp /\
  Running (newAppState cfgEcho) = false /\
  (kind (ErrStart "Echo" "exec: not found") = LaunchFailure /\
   apps (fst (StartApp mIdle "Echo" (StartError "exec: not found")))
     !! "Echo" = Some (newAppState cfgEcho)) /\
  (exists app,
     apps mEchoUp !! "Echo" = Some app /\ Running app = true /\
     apps (fst (StartApp mEchoUp "Echo" (Spawned 2 200))) !! "Echo" =
       Some app).
Proof.
  repeat apply conj.
  - eapply (proj1 (failing_call_leaves_state mEchoUp "Echo")).
    vm_compute. reflexivity.
  - eapply (proj1 (proj2 (failing_call_leaves_state mEchoUp "Echo"))).
    vm_compute. reflexivity.
  - eapply (proj1 (proj2 (proj2 (failing_call_leaves_state mIdle "Echo")))
              (StartError "exec: not found")).
    + vm_compute. reflexivity.
    + discriminate.
    + vm_compute. reflexivity.
  - apply (proj1 (proj2 (proj2 (proj2
             (failing_call_leaves_state mIdle "Echo"))))
             (StartError "exec: not found")
             (ErrStart "Echo" "exec: not found") (newAppState cfgEcho)).
    + vm_compute. reflexivity.
    + reflexivity.
    + vm_compute. reflexivity.
  - apply (proj1 (proj2 (proj2 (proj2
             (failing_call_leaves_state mIdle "Echo"))))
             (StartError "exec: not found")
             (ErrStart "Echo" "exec: not found") (newAppState cfgEcho)).
    + vm_compute. reflexivity.
    + reflexivity.
    + vm_compute. reflexivity.
  - apply (proj2 (proj2 (proj2 (proj2
             (failing_call_leaves_state mEchoUp "Echo"))))
             (Spawned 2 200) (ErrAlreadyRunning "Echo")).
    + vm_compute. reflexivity.
    + reflexivity.
Defined.

(** C10.  A successful [StartApp] leaves the configuration, the health
    status, the time of the last check and the channel of the record as they
    were, and leaves every other record alone; so an app that is stopped and
    then started again is running with the status "Stopped". *)
Theorem StartApp_frame (m m' : Manager) (appName : string) (os : SpawnOutcome)
  (tasks : list Task) :
  StartApp m appName os = (m', Ok tasks) ->
  (exists app app',
     apps m !! appName = Some app /\ apps m' !! appName = Some app' /\
     Config app' = Config app /\
     HealthStatus app' = HealthStatus app /\
     HealthLastCheck app' = HealthLastCheck app /\
     OutputChan app' = OutputChan app) /\
  (forall other, other <> appName -> apps m' !! other = apps m !! other) /\
  (forall m0 kill u, StopApp m0 appName kill = (m, Ok u) ->
     exists app', apps m' !! appName = Some app' /\
                  Running app' = true /\ HealthStatus app' = "Stopped").
Proof.
  intros HS.
  destruct (StartApp_Ok_inv m appName os m' tasks HS)
    as (app & ptr & pid & H & Hr & ->).
  rewrite (StartApp_spawned m appName ptr pid app H Hr) in HS.
  injection HS as <- _.
  repeat apply conj.
  - exists app. eexists. split; [exact H|].
    split; [apply lookup_store|]. simpl. auto.
  - intros other Hne. apply lookup_store_ne. congruence.
  - intros m0 kill u HK.
    destruct (StopApp_Ok_inv m0 appName kill m u HK)
      as (app0 & H0 & Hr0 & Hl0 & ->).
    rewrite (StopApp_killed m0 appName app0 H0 Hr0 Hl0) in HK.
    injection HK as <-.
    rewrite lookup_store in H. injection H as <-.
    eexists. split; [apply lookup_store|]. simpl. auto.
Qed.

Lemma StartApp_frame_witness :
  exists app',
    apps (fst (StartApp (fst (StopApp mEchoUp "Echo" None)) "Echo"
                 (Spawned 2 200))) !! "Echo" = Some app' /\
    Running app' = true /\ HealthStatus app' = "Stopped".
Proof.
  eapply (proj2 (proj2 (StartApp_frame
            (fst (StopApp mEchoUp "Echo" None))
            (fst (StartApp (fst (StopApp mEchoUp "Echo" None)) "Echo"
                    (Spawned 2 200)))
            "Echo" (Spawned 2 200)
            [ReaderTask "Echo"; WaiterTask "Echo" (mkCmd 2 (Some 200))] _))
          mEchoUp None tt).
  vm_compute. reflexivity.
  Unshelve. vm_compute. reflexivity.
Defined.

(** ** Writes through a record pointer *)

Lemma Manager_eq (m1 m2 : Manager) : apps m1 = apps m2 -> m1 = m2.
Proof. destruct m1, m2. simpl. now intros ->. Qed.

Lemma lookup_update appName f m :
  apps (update appName f m) !! appName = f <$> apps m !! appName.
Proof. unfold update. simpl. apply lookup_alter_eq. Qed.

Lemma lookup_update_ne appName other f m :
  appName <> other -> apps (update appName f m) !! other = apps m !! other.
Proof. intros H. unfold update. simpl. now apply lookup_alter_ne. Qed.

Lemma update_store appName f m app :
  apps m !! appName = Some app -> update appName f m = store appName (f app) m.
Proof.
  intros H. apply Manager_eq. unfold update, store. simpl.
  apply map_eq. intros k. destruct (decide (appName = k)) as [<-|Hne].
  - now rewrite lookup_alter_eq, lookup_insert_eq, H.
  - now rewrite lookup_alter_ne, lookup_insert_ne.
Qed.

Lemma store_same appName m app :
  apps m !! appName = Some app -> store appName app m = m.
Proof. intros H. apply Manager_eq. unfold store. simpl. now apply insert_id. Qed.

Lemma update_unknown appName f m :
  apps m !! appName = None -> update appName f m = m.
Proof.
  intros H. apply Manager_eq. unfold update. simpl.
  apply map_eq. intros k. destruct (decide (appName = k)) as [<-|Hne].
  - now rewrite lookup_alter_eq, H.
  - now rewrite lookup_alter_ne.
Qed.

(** ** The exit waiter *)

Lemma waiterWrite_current cmd err app :
  Cmd app = Some cmd ->
  waiterWrite cmd err app =
    {| Config := Config app;
       Cmd := None;
       Running := false;
       HealthStatus := match err with
                       | Some cause => "Exited: " ++ cause
                       | None => "Stopped"
                       end;
       HealthLastCheck := HealthLastCheck app;
       OutputBuffer := OutputBuffer app;
       OutputChan := OutputChan app |}.
Proof. intros H. unfold waiterWrite. now rewrite decide_True. Qed.

Lemma waiterWrite_superseded cmd err app :
  Cmd app <> Some cmd -> waiterWrite cmd err app = app.
Proof. intros H. unfold waiterWrite. now rewrite decide_False. Qed.

Lemma exitWaiter_superseded m appName app cmd err :
  apps m !! appName = Some app -> Cmd app <> Some cmd ->
  exitWaiter m appName cmd err = m.
Proof.
  intros H Hne. unfold exitWaiter.
  rewrite (update_store _ _ _ _ H), waiterWrite_superseded by exact Hne.
  now apply store_same.
Qed.

(** C3.  When the exit waiter of a launch fires and the record still holds
    the handle it tracks, the record ends with [Running] false, no handle and
    the status "Stopped" (clean exit) or "Exited: <cause>" (error).  When the
    record holds another handle or none, the store is unchanged; so the
    waiter of an earlier launch leaves the state that a later successful
    [StartApp] established as it is, with [Running] true. *)
Theorem exitWaiter_contract (m : Manager) (appName : string) (app : AppState)
  (cmd : exec_Cmd) (err : WaitOutcome) :
  apps m !! appName = Some app ->
  (Cmd app = Some cmd ->
     exists app',
       apps (exitWaiter m appName cmd err) !! appName = Some app' /\
       Running app' = false /\ Cmd app' = None /\
       HealthStatus app' = match err with
                           | Some cause => "Exited: " ++ cause
                           | None => "Stopped"
                           end) /\
  (Cmd app <> Some cmd -> exitWaiter m appName cmd err = m) /\
  (forall m0 ptr pid tasks,
     StartApp m0 appName (Spawned ptr pid) = (m, Ok tasks) ->
     cmd_ptr cmd <> ptr ->
     exitWaiter m appName cmd err = m /\ Running app = true).
Proof.
  intros H. repeat apply conj.
  - intros Hc. unfold exitWaiter. rewrite lookup_update, H. simpl.
    rewrite (waiterWrite_current cmd err app Hc).
    eexists. split; [reflexivity|]. simpl. auto.
  - now apply exitWaiter_superseded.
  - intros m0 ptr pid tasks HS Hptr.
    destruct (StartApp_Ok_inv m0 appName _ m tasks HS)
      as (app0 & ptr' & pid' & H0 & Hr0 & [= <- <-]).
    rewrite (StartApp_spawned m0 appName ptr pid app0 H0 Hr0) in HS.
    injection HS as <- _.
    rewrite lookup_store in H. injection H as <-.
    split; [|reflexivity].
    eapply exitWaiter_superseded; [apply lookup_store|].
    simpl. intros [= <-]. now apply Hptr.
Qed.

Lemma exitWaiter_contract_witness :
  (exists app',
     apps (exitWaiter mEchoUp "Echo" cmdFirst (Some "exit status 1"))
       !! "Echo" = Some app' /\
     Running app' = false /\ Cmd app' = None /\
     HealthStatus app' = "Exited: exit status 1") /\
  exitWaiter mEchoDown "Echo" cmdFirst None = mEchoDown /\
  (exitWaiter mEchoAgain "Echo" cmdFirst None = mEchoAgain /\
   Running (mkAppState cfgEcho (Some (mkCmd 2 (Some 200))) true "Stopped" 0%Z
              [] []) = true).
Proof.
  assert (Hup : apps mEchoUp !! "Echo" =
                Some (mkAppState cfgEcho (Some cmdFirst) true "Unknown" 0%Z
                        [] [])) by (vm_compute; reflexivity).
  assert (Hdown : apps mEchoDown !! "Echo" =
                  Some (mkAppState cfgEcho None false "Stopped" 0%Z [] []))
    by (vm_compute; reflexivity).
  assert (Hagain : apps mEchoAgain !! "Echo" =
                   Some (mkAppState cfgEcho (Some (mkCmd 2 (Some 200))) true
                           "Stopped" 0%Z [] []))
    by (vm_compute; reflexivity).
  repeat apply conj.
  - apply (proj1 (exitWaiter_contract mEchoUp "Echo" _ cmdFirst
                    (Some "exit status 1") Hup)).
    reflexivity.
  - apply (proj1 (proj2 (exitWaiter_contract mEchoDown "Echo" _ cmdFirst
                           None Hdown))).
    discriminate.
  - apply (proj2 (proj2 (exitWaiter_contract mEchoAgain "Echo" _ cmdFirst
                           None Hagain)) mEchoDown 2 200
             [ReaderTask "Echo"; WaiterTask "Echo" (mkCmd 2 (Some 200))]).
    + vm_compute. reflexivity.
    + simpl. lia.
  - apply (proj2 (proj2 (exitWaiter_contract mEchoAgain "Echo" _ cmdFirst
                           None Hagain)) mEchoDown 2 200
             [ReaderTask "Echo"; WaiterTask "Echo" (mkCmd 2 (Some 200))]).
    + vm_compute. reflexivity.
    + simpl. lia.
Defined.

(** ** Health probe *)

Lemma probeStatus_error msg :
  String.prefix "Error:" (probeStatus (HttpError msg)) = true.
Proof. reflexivity. Qed.

Lemma CheckAppHealth_no_url m appName app get now :
  apps m !! appName = Some app -> HealthURL (Config app) = "" ->
  CheckAppHealth m appName get now =
    (store appName (setHealth "N/A" now app) m, []).
Proof. intros H Hu. unfold CheckAppHealth. now rewrite H, Hu. Qed.

Lemma CheckAppHealth_url m appName app get now :
  apps m !! appName = Some app -> HealthURL (Config app) <> "" ->
  CheckAppHealth m appName get now =
    (store appName (setHealth (probeStatus get) now app) m,
     [HttpGet appName (HealthURL (Config app))]).
Proof.
  intros H Hu. unfold CheckAppHealth. rewrite H.
  apply String.eqb_neq in Hu. now rewrite Hu.
Qed.

(** C4.  One run of [CheckAppHealth] on a record sets the time of the last
    check to the time of the probe in every case, and the status to "N/A"
    when no URL is configured, and otherwise to "Healthy" for an answer with
    status 200, to "Degraded (<code>)" for any other status code, and to a
    text that starts with "Error:" when the request failed. *)
Theorem CheckAppHealth_classification (m : Manager) (appName : string)
  (app : AppState) (get : HttpOutcome) (now : Time) :
  apps m !! appName = Some app ->
  exists app',
    apps (fst (CheckAppHealth m appName get now)) !! appName = Some app' /\
    HealthLastCheck app' = now /\
    (HealthURL (Config app) = "" -> HealthStatus app' = "N/A") /\
    (HealthURL (Config app) <> "" ->
       match get with
       | HttpResponse code =>
         (code = 200%Z -> HealthStatus app' = "Healthy") /\
         (code <> 200%Z ->
            HealthStatus app' = "Degraded (" ++ pretty code ++ ")")
       | HttpError msg =>
         HealthStatus app' = "Error: " ++ msg /\
         String.prefix "Error:" (HealthStatus app') = true
       end).
Proof.
  intros H.
  destruct (String.eqb_spec (HealthURL (Config app)) "") as [Hu|Hu].
  - rewrite (CheckAppHealth_no_url m appName app get now H Hu). simpl.
    eexists. split; [apply lookup_insert_eq|]. simpl.
    repeat split; congruence.
  - rewrite (CheckAppHealth_url m appName app get now H Hu). simpl.
    eexists. split; [apply lookup_insert_eq|]. simpl.
    split; [reflexivity|]. split; [congruence|]. intros _.
    destruct get as [msg|code]; simpl.
    + split; reflexivity.
    + split; intros Hc.
      * subst code. reflexivity.
      * apply Z.eqb_neq in Hc. now rewrite Hc.
Qed.

Lemma CheckAppHealth_classification_witness :
  exists app',
    apps (fst (CheckAppHealth mIdle "Web" (HttpResponse 503) 1700000000%Z))
      !! "Web" = Some app' /\
    HealthLastCheck app' = 1700000000%Z /\
    HealthStatus app' = "Degraded (503)".
Proof.
  assert (H : apps mIdle !! "Web" = Some (newAppState cfgWeb))
    by (vm_compute; reflexivity).
  destruct (CheckAppHealth_classification mIdle "Web" (newAppState cfgWeb)
              (HttpResponse 503) 1700000000%Z H) as (app' & Hl & Ht & _ & Hs).
  exists app'. split; [exact Hl|]. split; [exact Ht|].
  assert (Hu : HealthURL (Config (newAppState cfgWeb)) <> "") by discriminate.
  destruct (Hs Hu) as [_ Hd]. rewrite Hd by lia.
  vm_compute. reflexivity.
Defined.

Example probeStatus_200 : probeStatus (HttpResponse 200) = "Healthy".
Proof. reflexivity. Qed.

Example probeStatus_503 : probeStatus (HttpResponse 503) = "Degraded (503)".
Proof. vm_compute. reflexivity. Qed.

Example probeStatus_unreachable :
  probeStatus (HttpError "dial tcp 127.0.0.1:8080: connect: connection refused")
  = "Error: dial tcp 127.0.0.1:8080: connect: connection refused".
Proof. reflexivity. Qed.

Example CheckAppHealth_Echo :
  apps (fst (CheckAppHealth mEchoUp "Echo" (HttpResponse 200) 5%Z)) !! "Echo" =
    Some (mkAppState cfgEcho (Some cmdFirst) true "N/A" 5%Z [] []) /\
  snd (CheckAppHealth mEchoUp "Echo" (HttpResponse 200) 5%Z) = [].
Proof. split; vm_compute; reflexivity. Qed.

(** ** Construction *)

(** The loop of [NewManager] from any map: a name ends up with the record of
    the last configuration that carries it. *)
Lemma NewManager_loop_lookup (configs : list AppConfig)
  (a : gmap string AppState) (appName : string) :
  fold_left (fun a cfg => <[Name cfg := newAppState cfg]> a) configs a
    !! appName =
  match last (filter (fun cfg => Name cfg = appName) configs) with
  | Some cfg => Some (newAppState cfg)
  | None => a !! appName
  end.
Proof.
  revert a. induction configs as [|c cs IH]; intros a; [reflexivity|].
  simpl fold_left. rewrite IH. rewrite filter_cons.
  destruct (decide (Name c = appName)) as [Hc|Hc].
  - rewrite last_cons.
    destruct (last (filter (fun cfg => Name cfg = appName) cs)); [reflexivity|].
    rewrite <- Hc. now rewrite lookup_insert_eq.
  - destruct (last (filter (fun cfg => Name cfg = appName) cs)); [reflexivity|].
    now rewrite lookup_insert_ne.
Qed.

Lemma NewManager_lookup (configs : list AppConfig) (appName : string) :
  apps (NewManager configs) !! appName =
  newAppState <$> last (filter (fun cfg => Name cfg = appName) configs).
Proof.
  unfold NewManager. simpl. rewrite NewManager_loop_lookup.
  now destruct (last (filter (fun cfg => Name cfg = appName) configs)).
Qed.

Lemma NewManager_fresh (configs : list AppConfig) (appName : string)
  (app : AppState) :
  apps (NewManager configs) !! appName = Some app ->
  exists cfg, cfg ∈ configs /\ Name cfg = appName /\ app = newAppState cfg.
Proof.
  rewrite NewManager_lookup.
  destruct (last (filter (fun cfg => Name cfg = appName) configs))
    as [cfg|] eqn:Hl; [|discriminate].
  intros [= <-]. exists cfg.
  apply last_Some_elem_of, list_elem_of_filter in Hl. tauto.
Qed.

(** ** Output buffer *)

Lemma writeOutput_bounded (buf line : list byte) :
  length (writeOutput buf line) <= OutputBufferCap.
Proof.
  unfold writeOutput, OutputBufferCap, OutputBufferKeep.
  destruct (Nat.ltb_spec 4096 (length (buf ++ line)%list)) as [Hlt|Hle].
  - rewrite length_drop. lia.
  - exact Hle.
Qed.

Lemma writeOutput_trim (buf line : list byte) :
  OutputBufferCap < length (buf ++ line)%list ->
  writeOutput buf line =
    drop (length (buf ++ line)%list - OutputBufferKeep) (buf ++ line)%list /\
  length (writeOutput buf line) = OutputBufferKeep.
Proof.
  intros Hlt. unfold writeOutput.
  apply Nat.ltb_lt in Hlt as Hb. rewrite Hb.
  split; [reflexivity|]. rewrite length_drop.
  unfold OutputBufferCap, OutputBufferKeep in *. lia.
Qed.

Lemma writeOutput_fits (buf line : list byte) :
  length (buf ++ line)%list <= OutputBufferCap ->
  writeOutput buf line = (buf ++ line)%list.
Proof.
  intros Hle. unfold writeOutput.
  apply Nat.ltb_ge in Hle. now rewrite Hle.
Qed.

Lemma writeOutput_all_bounded (chunks : list (list byte)) (buf : list byte) :
  length buf <= OutputBufferCap ->
  length (fold_left writeOutput chunks buf) <= OutputBufferCap.
Proof.
  revert buf. induction chunks as [|c cs IH]; intros buf Hb; [exact Hb|].
  simpl. apply IH, writeOutput_bounded.
Qed.

(** A write through a pointer keeps the bound when the new record does. *)
Lemma buffersBounded_store m appName app :
  buffersBounded m -> length (OutputBuffer app) <= OutputBufferCap ->
  buffersBounded (store appName app m).
Proof.
  intros Hm Ha n a. destruct (decide (appName = n)) as [<-|Hne].
  - rewrite lookup_store. now intros [= <-].
  - rewrite lookup_store_ne by exact Hne. apply Hm.
Qed.

Lemma buffersBounded_update m appName f :
  buffersBounded m ->
  (forall app, length (OutputBuffer app) <= OutputBufferCap ->
               length (OutputBuffer (f app)) <= OutputBufferCap) ->
  buffersBounded (update appName f m).
Proof.
  intros Hm Hf. destruct (apps m !! appName) as [app|] eqn:H.
  - rewrite (update_store _ _ _ _ H).
    apply buffersBounded_store; [exact Hm|]. apply Hf. now apply (Hm appName).
  - now rewrite update_unknown.
Qed.

Lemma buffersBounded_NewManager configs : buffersBounded (NewManager configs).
Proof.
  intros n a H. apply NewManager_fresh in H as (cfg & _ & _ & ->).
  simpl. lia.
Qed.

Lemma buffersBounded_capture m appName line :
  buffersBounded m -> buffersBounded (update appName (captureWrite line) m).
Proof.
  intros Hm. apply buffersBounded_update; [exact Hm|].
  intros app _. simpl. apply writeOutput_bounded.
Qed.

Lemma buffersBounded_step m a : buffersBounded m -> buffersBounded (step m a).
Proof.
  intros Hm. destruct a as [n os|n kill|n line|n cmd err|n get now]; simpl.
  - unfold StartApp. destruct (apps m !! n) as [app|] eqn:H; [|exact Hm].
    destruct (Running app); [exact Hm|].
    destruct os; try exact Hm. simpl.
    apply buffersBounded_store; [exact Hm|]. simpl. lia.
  - unfold StopApp. destruct (apps m !! n) as [app|] eqn:H; [|exact Hm].
    destruct (negb (Running app) || noLiveHandle app); [exact Hm|].
    destruct kill; [exact Hm|]. simpl.
    apply buffersBounded_store; [exact Hm|]. simpl. now apply (Hm n).
  - now apply buffersBounded_capture.
  - apply buffersBounded_update; [exact Hm|].
    intros app Ha. unfold waiterWrite. now destruct (decide _).
  - unfold healthCheckApp, CheckAppHealth.
    destruct (apps m !! n) as [app|] eqn:H; [|exact Hm].
    destruct (Running app); [destruct (String.eqb _ _)|]; simpl;
      (apply buffersBounded_store; [exact Hm|]; simpl; now apply (Hm n)).
Qed.

Lemma buffersBounded_run acts m : buffersBounded m -> buffersBounded (run m acts).
Proof.
  revert m. induction acts as [|a acts IH]; intros m Hm; [exact Hm|].
  simpl. apply IH, buffersBounded_step, Hm.
Qed.

Lemma buffersBounded_readerTask reads m appName :
  buffersBounded m -> buffersBounded (readerTask m appName reads).
Proof.
  revert m. induction reads as [|r reads IH]; intros m Hm; [exact Hm|].
  simpl. assert (Hm' : buffersBounded
                         (if (0 <? length (read_data r))%nat
                          then update appName (captureWrite (read_data r)) m
                          else m)).
  { destruct (0 <? length (read_data r))%nat;
      [now apply buffersBounded_capture | exact Hm]. }
  destruct (negb (read_err r)); [now apply IH | exact Hm'].
Qed.

(** C5.  A write step of the capture task leaves at most 4096 bytes in the
    buffer, whatever the buffer and the chunk; when the write takes the
    buffer over 4096 bytes, what is left is its last 2048 bytes.  Hence the
    bound holds after every sequence of chunks written to a fresh buffer,
    after a run of the reader goroutine, and in every state the store reaches
    from [NewManager] under any interleaving of the critical sections. *)
Theorem OutputBuffer_bounded :
  (forall buf line, length (writeOutput buf line) <= OutputBufferCap) /\
  (forall buf line,
     OutputBufferCap < length (buf ++ line)%list ->
     writeOutput buf line =
       drop (length (buf ++ line)%list - OutputBufferKeep) (buf ++ line)%list /\
     length (writeOutput buf line) = OutputBufferKeep) /\
  (forall chunks, length (fold_left writeOutput chunks []) <= OutputBufferCap) /\
  (forall m appName reads,
     buffersBounded m -> buffersBounded (readerTask m appName reads)) /\
  (forall configs acts appName app,
     apps (run (NewManager configs) acts) !! appName = Some app ->
     length (OutputBuffer app) <= OutputBufferCap).
Proof.
  repeat apply conj.
  - apply writeOutput_bounded.
  - apply writeOutput_trim.
  - intros chunks. apply writeOutput_all_bounded. simpl. lia.
  - intros m appName reads. apply buffersBounded_readerTask.
  - intros configs acts appName app.
    apply (buffersBounded_run acts (NewManager configs)
             (buffersBounded_NewManager configs)).
Qed.

Lemma OutputBuffer_bounded_witness :
  (writeOutput bufNearCap chunkOver = (repeat x41 1048 ++ chunkOver)%list /\
   length (writeOutput bufNearCap chunkOver) = 2048) /\
  length (OutputBuffer
            (mkAppState cfgEcho (Some cmdFirst) true "Unknown" 0%Z
               (writeOutput bufNearCap chunkOver) [bufNearCap; chunkOver]))
    <= 4096.
Proof.
  split.
  - destruct (proj1 (proj2 OutputBuffer_bounded) bufNearCap chunkOver)
      as [Heq Hlen].
    + apply Nat.ltb_lt. vm_compute. reflexivity.
    + split; [rewrite Heq; vm_compute; reflexivity | exact Hlen].
  - apply (proj2 (proj2 (proj2 (proj2 OutputBuffer_bounded)))
             [cfgEcho; cfgWeb]
             [ActStart "Echo" (Spawned 1 100);
              ActOutput "Echo" bufNearCap;
              ActOutput "Echo" chunkOver]
             "Echo").
    vm_compute. reflexivity.
Defined.

(** ** The periodic health check *)

Lemma healthCheckApp_record m appName app get now :
  apps m !! appName = Some app ->
  healthCheckApp m appName get now =
    (store appName (healthCheckRecord get now app) m,
     healthCheckCalls appName app).
Proof.
  intros H. unfold healthCheckApp, CheckAppHealth, healthCheckRecord,
    healthCheckCalls. rewrite H.
  destruct (Running app); [|reflexivity].
  now destruct (String.eqb (HealthURL (Config app)) "").
Qed.

Lemma healthCheckApp_unknown m appName get now :
  apps m !! appName = None -> healthCheckApp m appName get now = (m, []).
Proof. intros H. unfold healthCheckApp. now rewrite H. Qed.

Lemma healthCheckApp_self m appName get now :
  apps (fst (healthCheckApp m appName get now)) !! appName =
    healthCheckRecord get now <$> apps m !! appName.
Proof.
  destruct (apps m !! appName) as [app|] eqn:H.
  - rewrite (healthCheckApp_record _ _ _ _ _ H). simpl. apply lookup_insert_eq.
  - rewrite (healthCheckApp_unknown _ _ _ _ H). simpl. exact H.
Qed.

Lemma healthCheckApp_other m appName other get now :
  appName <> other ->
  apps (fst (healthCheckApp m appName get now)) !! other = apps m !! other.
Proof.
  intros Hne. destruct (apps m !! appName) as [app|] eqn:H.
  - rewrite (healthCheckApp_record _ _ _ _ _ H). simpl.
    now apply lookup_insert_ne.
  - now rewrite (healthCheckApp_unknown _ _ _ _ H).
Qed.

Lemma healthCheckApp_calls m appName get now :
  snd (healthCheckApp m appName get now) =
    match apps m !! appName with
    | Some app => healthCheckCalls appName app
    | None => []
    end.
Proof.
  destruct (apps m !! appName) as [app|] eqn:H.
  - now rewrite (healthCheckApp_record _ _ _ _ _ H).
  - now rewrite (healthCheckApp_unknown _ _ _ _ H).
Qed.

Lemma healthCheckAll_cons m appName rest get now :
  healthCheckAll m (appName :: rest) get now =
    (fst (healthCheckAll
            (fst (healthCheckApp m appName (get appName) (now appName)))
            rest get now),
     (snd (healthCheckApp m appName (get appName) (now appName)) ++
      snd (healthCheckAll
             (fst (healthCheckApp m appName (get appName) (now appName)))
             rest get now))%list).
Proof.
  simpl. destruct (healthCheckApp m appName (get appName) (now appName)).
  simpl. now destruct (healthCheckAll m0 rest get now).
Qed.

Section Tick.
Variable get : string -> HttpOutcome.
Variable now : string -> Time.

(** A record the tick does not visit is left alone; a record it visits once
    is rewritten by the loop body, whatever was visited before and after. *)
Lemma healthCheckAll_lookup snapshot : forall m appName,
  NoDup snapshot ->
  apps (fst (healthCheckAll m snapshot get now)) !! appName =
    if decide (appName ∈ snapshot)
    then healthCheckRecord (get appName) (now appName) <$> apps m !! appName
    else apps m !! appName.
Proof.
  induction snapshot as [|n rest IH]; intros m appName Hnd.
  - destruct (decide (appName ∈ [])) as [H|_]; [|reflexivity].
    now apply elem_of_nil in H.
  - apply NoDup_cons in Hnd as [Hn Hrest].
    rewrite healthCheckAll_cons. cbn [fst]. rewrite (IH _ _ Hrest).
    destruct (decide (appName = n)) as [->|Hne].
    + destruct (decide (n ∈ rest)) as [?|_]; [contradiction|].
      destruct (decide (n ∈ n :: rest)) as [_|Hx].
      * apply healthCheckApp_self.
      * exfalso. apply Hx, list_elem_of_here.
    + rewrite healthCheckApp_other by congruence.
      destruct (decide (appName ∈ rest)) as [Hin|Hin];
        destruct (decide (appName ∈ n :: rest)) as [Hin'|Hin'];
        try reflexivity.
      * exfalso. now apply Hin', list_elem_of_further.
      * apply elem_of_cons in Hin' as [?|?]; contradiction.
Qed.

(** The calls of a tick are those of the loop body on the visited records. *)
Lemma healthCheckAll_calls snapshot : forall m c,
  NoDup snapshot ->
  c ∈ snd (healthCheckAll m snapshot get now) <->
  exists appName app,
    appName ∈ snapshot /\ apps m !! appName = Some app /\
    c ∈ healthCheckCalls appName app.
Proof.
  induction snapshot as [|n rest IH]; intros m c Hnd.
  - simpl. split.
    + intros H. now apply elem_of_nil in H.
    + intros (a & app & H & _). now apply elem_of_nil in H.
  - apply NoDup_cons in Hnd as [Hn Hrest].
    rewrite healthCheckAll_cons. simpl snd.
    rewrite elem_of_app, (IH _ _ Hrest), healthCheckApp_calls. split.
    + intros [H | (a & app & Ha & Hl & Hc)].
      * destruct (apps m !! n) as [app|] eqn:Hl.
        -- exists n, app. split; [apply list_elem_of_here | auto].
        -- now apply elem_of_nil in H.
      * exists a, app. split; [now apply list_elem_of_further|].
        split; [|exact Hc].
        rewrite healthCheckApp_other in Hl; [exact Hl|].
        intros <-. contradiction.
    + intros (a & app & Ha & Hl & Hc).
      apply elem_of_cons in Ha as [->|Ha].
      * left. now rewrite Hl.
      * right. exists a, app. split; [exact Ha|]. split; [|exact Hc].
        rewrite healthCheckApp_other; [exact Hl|].
        intros <-. contradiction.
Qed.
End Tick.

Lemma isSnapshot_NoDup m snapshot : isSnapshot m snapshot -> NoDup snapshot.
Proof.
  unfold isSnapshot. intros ->. apply NoDup_fst_map_to_list.
Qed.

Lemma isSnapshot_elem m snapshot appName app :
  isSnapshot m snapshot -> apps m !! appName = Some app -> appName ∈ snapshot.
Proof.
  unfold isSnapshot. intros -> H.
  apply list_elem_of_fmap. exists (appName, app).
  split; [reflexivity|]. now apply elem_of_map_to_list.
Qed.

(** C7.  One tick of [RunHealthChecks], in whatever order it visits the
    records of the map: a record that is running ends as [CheckAppHealth]
    leaves it, and the GET to its URL (when it has one) is among the calls of
    the tick; a record that is not running ends with the status "Stopped" and
    the time of the tick, and no call of the tick is for that app. *)
Theorem healthCheckAll_contract (m : Manager) (snapshot : list string)
  (get : string -> HttpOutcome) (now : string -> Time)
  (appName : string) (app : AppState) :
  isSnapshot m snapshot ->
  apps m !! appName = Some app ->
  (Running app = true ->
     apps (fst (healthCheckAll m snapshot get now)) !! appName =
       apps (fst (CheckAppHealth m appName (get appName) (now appName)))
         !! appName /\
     (HealthURL (Config app) <> "" ->
        HttpGet appName (HealthURL (Config app))
          ∈ snd (healthCheckAll m snapshot get now))) /\
  (Running app = false ->
     (exists app',
        apps (fst (healthCheckAll m snapshot get now)) !! appName = Some app' /\
        HealthStatus app' = "Stopped" /\
        HealthLastCheck app' = now appName /\
        Running app' = false) /\
     (forall url,
        HttpGet appName url ∉ snd (healthCheckAll m snapshot get now))).
Proof.
  intros Hs H.
  pose proof (isSnapshot_NoDup _ _ Hs) as Hnd.
  pose proof (isSnapshot_elem _ _ _ _ Hs H) as Hin.
  assert (Hl : apps (fst (healthCheckAll m snapshot get now)) !! appName =
               Some (healthCheckRecord (get appName) (now appName) app)).
  { rewrite (healthCheckAll_lookup get now snapshot m appName Hnd).
    destruct (decide (appName ∈ snapshot)); [|contradiction].
    now rewrite H. }
  split; intros Hr.
  - split.
    + rewrite Hl. unfold healthCheckRecord, CheckAppHealth. rewrite Hr, H.
      destruct (String.eqb (HealthURL (Config app)) ""); simpl;
        now rewrite lookup_insert_eq.
    + intros Hu. apply (healthCheckAll_calls get now snapshot m _ Hnd).
      exists appName, app. split; [exact Hin|]. split; [exact H|].
      unfold healthCheckCalls. rewrite Hr.
      apply String.eqb_neq in Hu. rewrite Hu. apply list_elem_of_here.
  - split.
    + eexists. split; [exact Hl|].
      unfold healthCheckRecord. rewrite Hr. simpl. auto.
    + intros url Hc.
      apply (healthCheckAll_calls get now snapshot m _ Hnd) in Hc
        as (a & app2 & _ & Hl2 & Hc).
      unfold healthCheckCalls in Hc.
      destruct (Running app2) eqn:Hr2; [|now apply elem_of_nil in Hc].
      destruct (String.eqb (HealthURL (Config app2)) "");
        [now apply elem_of_nil in Hc|].
      apply list_elem_of_singleton in Hc. injection Hc as <- _.
      congruence.
Qed.

Lemma healthCheckAll_contract_witness :
  (apps (fst (healthCheckAll mWebUp ["Echo"; "Web"] getOk nowAt)) !! "Web" =
     Some (mkAppState cfgWeb (Some (mkCmd 3 (Some 300))) true "Healthy"
             1700000000%Z [] []) /\
   HttpGet "Web" "http://127.0.0.1:8080/health"
     ∈ snd (healthCheckAll mWebUp ["Echo"; "Web"] getOk nowAt)) /\
  ((exists app',
      apps (fst (healthCheckAll mWebUp ["Echo"; "Web"] getOk nowAt)) !! "Echo"
        = Some app' /\
      HealthStatus app' = "Stopped" /\
      HealthLastCheck app' = 1700000000%Z /\
      Running app' = false) /\
   (forall url,
      HttpGet "Echo" url
        ∉ snd (healthCheckAll mWebUp ["Echo"; "Web"] getOk nowAt))).
Proof.
  assert (Hs : isSnapshot mWebUp ["Echo"; "Web"]).
  { unfold isSnapshot. vm_compute.
    first [apply Permutation_refl | apply perm_swap]. }
  assert (Hweb : apps mWebUp !! "Web" =
                 Some (mkAppState cfgWeb (Some (mkCmd 3 (Some 300))) true
                         "Unknown" 0%Z [] []))
    by (vm_compute; reflexivity).
  assert (Hecho : apps mWebUp !! "Echo" =
                  Some (mkAppState cfgEcho None false "Stopped" 0%Z [] []))
    by (vm_compute; reflexivity).
  split.
  - destruct (proj1 (healthCheckAll_contract mWebUp ["Echo"; "Web"] getOk
                       nowAt "Web" _ Hs Hweb) eq_refl) as [Hl Hc].
    split.
    + rewrite Hl. vm_compute. reflexivity.
    + apply Hc. discriminate.
  - apply (proj2 (healthCheckAll_contract mWebUp ["Echo"; "Web"] getOk
                    nowAt "Echo" _ Hs Hecho)).
    reflexivity.
Defined.

(** ** Splitting and joining lines *)

Lemma Split_not_nil (s : list byte) : Split s <> [].
Proof.
  destruct s as [|c s]; simpl; [discriminate|].
  destruct (Byte.eqb c newline); [discriminate|].
  destruct (Split s); discriminate.
Qed.

Lemma Join_cons (l : list byte) (ls : list (list byte)) :
  ls <> [] -> Join (l :: ls) = (l ++ newline :: Join ls)%list.
Proof. destruct ls; [congruence | reflexivity]. Qed.

Lemma Join_Split (s : list byte) : Join (Split s) = s.
Proof.
  induction s as [|c s IH]; [reflexivity|].
  simpl Split. destruct (Byte.eqb c newline) eqn:Hc.
  - apply byte_dec_bl in Hc as ->.
    rewrite Join_cons by apply Split_not_nil. now rewrite IH.
  - pose proof (Split_not_nil s) as Hn.
    destruct (Split s) as [|l ls]; [congruence|].
    destruct ls as [|l' ls].
    + simpl in *. now rewrite IH.
    + rewrite Join_cons by discriminate.
      rewrite Join_cons in IH by discriminate.
      rewrite <- IH. reflexivity.
Qed.

Lemma Split_line_app (l s : list byte) :
  newline ∉ l -> Split (l ++ newline :: s) = l :: Split s.
Proof.
  induction l as [|c l IH]; intros Hl; [reflexivity|].
  apply not_elem_of_cons in Hl as [Hc Hl].
  simpl. rewrite (IH Hl).
  destruct (Byte.eqb c newline) eqn:E; [|reflexivity].
  apply byte_dec_bl in E. congruence.
Qed.

Lemma Split_line (l : list byte) : newline ∉ l -> Split l = [l].
Proof.
  induction l as [|c l IH]; intros Hl; [reflexivity|].
  apply not_elem_of_cons in Hl as [Hc Hl].
  simpl. rewrite (IH Hl).
  destruct (Byte.eqb c newline) eqn:E; [|reflexivity].
  apply byte_dec_bl in E. congruence.
Qed.

Lemma Split_Join (ls : list (list byte)) :
  ls <> [] -> Forall (fun l => newline ∉ l) ls -> Split (Join ls) = ls.
Proof.
  induction ls as [|l ls IH]; intros Hn Hc; [congruence|].
  apply Forall_cons in Hc as [Hl Hc].
  destruct ls as [|l' ls]; [now apply Split_line|].
  rewrite Join_cons by discriminate.
  rewrite Split_line_app by exact Hl.
  now rewrite IH.
Qed.

Lemma Split_lines (s : list byte) : Forall (fun l => newline ∉ l) (Split s).
Proof.
  induction s as [|c s IH].
  - simpl. constructor; [apply not_elem_of_nil | constructor].
  - simpl. destruct (Byte.eqb c newline) eqn:E.
    + constructor; [apply not_elem_of_nil | exact IH].
    + apply eqb_false in E.
      destruct (Split s) as [|l ls].
      * constructor; [|constructor].
        apply not_elem_of_cons. split; [congruence | apply not_elem_of_nil].
      * apply Forall_cons in IH as [Hl Hls].
        constructor; [|exact Hls].
        apply not_elem_of_cons. split; [congruence | exact Hl].
Qed.

Lemma Join_app (a b : list (list byte)) :
  a <> [] -> b <> [] ->
  Join (a ++ b) = (Join a ++ newline :: Join b)%list.
Proof.
  induction a as [|l a IH]; intros Ha Hb; [congruence|].
  destruct a as [|l' a].
  - simpl app. now rewrite Join_cons.
  - change ((l :: l' :: a) ++ b)%list with (l :: ((l' :: a) ++ b))%list.
    rewrite Join_cons by discriminate.
    rewrite IH by (discriminate || exact Hb).
    rewrite (Join_cons l (l' :: a)) by discriminate.
    now rewrite <- app_assoc.
Qed.

(** ** Output tail *)

Lemma tailOutput_long (output : list byte) :
  TailLimit < length (Split output) ->
  tailOutput output =
    Join (drop (length (Split output) - TailLimit) (Split output)).
Proof.
  intros H. unfold tailOutput. apply Nat.ltb_lt in H. now rewrite H.
Qed.

Lemma tailOutput_short (output : list byte) :
  length (Split output) <= TailLimit -> tailOutput output = output.
Proof.
  intros H. unfold tailOutput. apply Nat.ltb_ge in H. rewrite H.
  apply Join_Split.
Qed.

Lemma tailOutput_Split (output : list byte) :
  TailLimit < length (Split output) ->
  Split (tailOutput output) =
    drop (length (Split output) - TailLimit) (Split output).
Proof.
  intros H. rewrite (tailOutput_long output H).
  apply Split_Join.
  - intros Hd. apply (f_equal length) in Hd.
    rewrite length_drop in Hd. simpl in Hd. unfold TailLimit in *. lia.
  - apply Forall_drop, Split_lines.
Qed.

Lemma tailOutput_suffix (output : list byte) :
  TailLimit < length (Split output) ->
  output =
    (Join (take (length (Split output) - TailLimit) (Split output))
       ++ newline :: tailOutput output)%list.
Proof.
  intros H. rewrite (tailOutput_long output H).
  rewrite <- Join_app.
  - now rewrite take_drop, Join_Split.
  - intros Ht. apply (f_equal length) in Ht.
    rewrite length_take in Ht. simpl in Ht. unfold TailLimit in *. lia.
  - intros Hd. apply (f_equal length) in Hd.
    rewrite length_drop in Hd. simpl in Hd. unfold TailLimit in *. lia.
Qed.

(** C8.  For a known app whose buffer splits on newline into more than 50
    lines, [getAppOutputHandler] answers with a body that splits into exactly
    the last 50 of these lines, in the order of the buffer; the body is the
    end of the buffer, after the newline that closes the lines left out. *)
Theorem getAppOutputHandler_tail (mgr : Manager) (appName : string)
  (app : AppState) :
  apps mgr !! appName = Some app ->
  TailLimit < length (Split (OutputBuffer app)) ->
  reply_status (getAppOutputHandler mgr appName) = 200 /\
  Split (reply_body (getAppOutputHandler mgr appName)) =
    drop (length (Split (OutputBuffer app)) - TailLimit)
      (Split (OutputBuffer app)) /\
  length (Split (reply_body (getAppOutputHandler mgr appName))) = TailLimit /\
  OutputBuffer app =
    (Join (take (length (Split (OutputBuffer app)) - TailLimit)
             (Split (OutputBuffer app)))
       ++ newline :: reply_body (getAppOutputHandler mgr appName))%list.
Proof.
  intros H Hlong. unfold getAppOutputHandler. rewrite H. simpl.
  split; [reflexivity|].
  rewrite (tailOutput_Split _ Hlong).
  split; [reflexivity|]. split.
  - rewrite length_drop. unfold TailLimit in *. lia.
  - now apply tailOutput_suffix.
Qed.

Lemma getAppOutputHandler_tail_witness :
  length (Split sixtyLines) = 60 /\
  Split (reply_body (getAppOutputHandler mEchoSixty "Echo")) =
    map numeral (seq 11 50) /\
  length (Split (reply_body (getAppOutputHandler mEchoSixty "Echo"))) = 50.
Proof.
  assert (H : apps mEchoSixty !! "Echo" =
              Some (mkAppState cfgEcho (Some cmdFirst) true "Unknown" 0%Z
                      sixtyLines [sixtyLines]))
    by (vm_compute; reflexivity).
  assert (Hlong : TailLimit <
                  length (Split (OutputBuffer
                    (mkAppState cfgEcho (Some cmdFirst) true "Unknown" 0%Z
                       sixtyLines [sixtyLines]))))
    by (apply Nat.ltb_lt; vm_compute; reflexivity).
  destruct (getAppOutputHandler_tail mEchoSixty "Echo" _ H Hlong)
    as (_ & Hs & Hl & _).
  split; [vm_compute; reflexivity|].
  split; [rewrite Hs; vm_compute; reflexivity | exact Hl].
Defined.

(** When each of the sixty lines ends with a newline, the buffer splits into
    61 pieces, the last one empty, and the body holds the lines 12 to 60. *)
Example tailOutput_terminated_lines :
  length (Split (sixtyLines ++ [newline])%list) = 61 /\
  Split (tailOutput (sixtyLines ++ [newline])%list) =
    (map numeral (seq 12 49) ++ [[]])%list.
Proof. split; vm_compute; reflexivity. Qed.

Example getAppOutputHandler_unknown :
  reply_status (getAppOutputHandler mIdle "Nope") = 404.
Proof. vm_compute. reflexivity. Qed.

(** ** Duplicate names *)

(** C9, as stated, fails: given two configurations named "Echo",
    [NewManager] returns a manager, whose map has a single record, the one
    of the second configuration. *)
Lemma NewManager_duplicate_counterexample :
  Name cfgEcho = Name cfgEchoAlt /\ cfgEcho <> cfgEchoAlt /\
  exists m,
    NewManager [cfgEcho; cfgEchoAlt] = m /\
    size (apps m) = 1 /\
    apps m !! "Echo" = Some (newAppState cfgEchoAlt) /\
    apps m !! "Echo" <> Some (newAppState cfgEcho).
Proof.
  split; [reflexivity|]. split; [discriminate|].
  eexists. split; [reflexivity|].
  split; [vm_compute; reflexivity|].
  split; [vm_compute; reflexivity|].
  vm_compute. discriminate.
Qed.

Lemma filter_Name_none (appName : string) (post : list AppConfig) :
  Forall (fun cfg => Name cfg <> appName) post ->
  filter (fun cfg => Name cfg = appName) post = [].
Proof.
  induction 1 as [|c post Hc _ IH]; [reflexivity|].
  now rewrite filter_cons_False.
Qed.

(** C9 (amended).  [NewManager] returns a manager for every list of
    configurations: a name is mapped to the fresh record of the last
    configuration that carries it, if there is one.  So of two
    configurations with the same name the record of the earlier one is not
    kept: when no later configuration has that name, the map holds the
    record of the second. *)
Theorem NewManager_last_wins (configs : list AppConfig) :
  (forall appName,
     apps (NewManager configs) !! appName =
       newAppState <$> last (filter (fun cfg => Name cfg = appName) configs)) /\
  (forall pre c1 mid c2 post,
     configs = (pre ++ c1 :: mid ++ c2 :: post)%list ->
     Name c1 = Name c2 ->
     Forall (fun cfg => Name cfg <> Name c2) post ->
     apps (NewManager configs) !! Name c1 = Some (newAppState c2)).
Proof.
  split; [apply NewManager_lookup|].
  intros pre c1 mid c2 post -> Hn Hpost.
  rewrite NewManager_lookup, Hn.
  change (pre ++ c1 :: mid ++ c2 :: post)%list
    with (pre ++ (c1 :: mid) ++ c2 :: post)%list.
  rewrite !filter_app, (filter_cons_True _ c2) by reflexivity.
  rewrite (filter_Name_none _ _ Hpost).
  now rewrite !last_app.
Qed.

Lemma NewManager_last_wins_witness :
  apps (NewManager [cfgWeb; cfgEcho; cfgEchoAlt]) !! "Echo" =
    Some (newAppState cfgEchoAlt).
Proof.
  apply (proj2 (NewManager_last_wins [cfgWeb; cfgEcho; cfgEchoAlt])
           [cfgWeb] cfgEcho [] cfgEchoAlt []).
  - reflexivity.
  - reflexivity.
  - constructor.
Defined.

(** ** A session *)

(** The texts of the errors a caller sees. *)
Example Error_string_samples :
  match snd (StartApp mIdle "Nope" (Spawned 1 100)) with
  | Fail e => Error_string e | Ok _ => ""
  end = "app Nope not found" /\
  match snd (StartApp mEchoUp "Echo" (Spawned 2 200)) with
  | Fail e => Error_string e | Ok _ => ""
  end = "app Echo is already running" /\
  match snd (StopApp mIdle "Echo" None) with
  | Fail e => Error_string e | Ok _ => ""
  end = "app Echo is not running" /\
  match snd (StopApp mEchoUp "Echo" killFailed) with
  | Fail e => Error_string e | Ok _ => ""
  end = "failed to kill app Echo: os: process already finished".
Proof. repeat split; vm_compute; reflexivity. Qed.

(** [Echo], which has no health URL: started, it is running with the status
    "Unknown"; one tick later the status is "N/A"; stopped, it is not running
    and the status is "Stopped".  The goroutines of the launch are the reader
    and the waiter for the handle of that launch. *)
Example Echo_session :
  snd (StartApp mIdle "Echo" (Spawned 1 100)) =
    Ok [ReaderTask "Echo"; WaiterTask "Echo" cmdFirst] /\
  apps mEchoUp !! "Echo" =
    Some (mkAppState cfgEcho (Some cmdFirst) true "Unknown" 0%Z [] []) /\
  apps (fst (healthCheckAll mEchoUp ["Web"; "Echo"] getOk nowAt)) !! "Echo" =
    Some (mkAppState cfgEcho (Some cmdFirst) true "N/A" 1700000000%Z [] []) /\
  snd (healthCheckAll mEchoUp ["Web"; "Echo"] getOk nowAt) = [] /\
  apps (fst (StopApp
               (fst (healthCheckAll mEchoUp ["Web"; "Echo"] getOk nowAt))
               "Echo" None)) !! "Echo" =
    Some (mkAppState cfgEcho None false "Stopped" 1700000000%Z [] []).
Proof. repeat split; vm_compute; reflexivity. Qed.

(** [Echo] stopped and started again, and then the goroutines of the first
    launch run on: its exit waiter changes nothing, its reader still appends
    to the buffer of the record. *)
Example Echo_restart_session :
  runTask mEchoAgain (WaiterTask "Echo" cmdFirst) [] (Some "signal: killed")
    = mEchoAgain /\
  apps (runTask mEchoAgain (ReaderTask "Echo")
          [mkReadResult (numeral 7) false; mkReadResult [] true] None)
    !! "Echo" =
    Some (mkAppState cfgEcho (Some (mkCmd 2 (Some 200))) true "Stopped" 0%Z
            (numeral 7) [numeral 7]).
Proof. split; vm_compute; reflexivity. Qed.

(** * Further properties of the code *)

(** ** Every critical section works on one record *)

Lemma step_update (m : Manager) (a : Action) :
  step m a = update (actName a) (actRecord a) m.
Proof.
  destruct a as [n os|n kill|n line|n cmd err|n get now]; simpl;
    try reflexivity.
  - unfold StartApp. destruct (apps m !! n) as [app|] eqn:H.
    + rewrite (update_store _ _ _ _ H).
      destruct (Running app) eqn:Hr.
      * destruct os; simpl; rewrite ?Hr; now rewrite store_same.
      * destruct os; simpl; rewrite ?Hr; try now rewrite store_same.
        reflexivity.
    + now rewrite update_unknown.
  - unfold StopApp. destruct (apps m !! n) as [app|] eqn:H.
    + rewrite (update_store _ _ _ _ H).
      destruct kill; simpl;
        destruct (negb (Running app) || noLiveHandle app); simpl;
        try now rewrite store_same.
      reflexivity.
    + now rewrite update_unknown.
  - destruct (apps m !! n) as [app|] eqn:H.
    + rewrite (healthCheckApp_record _ _ _ _ _ H). simpl.
      now rewrite (update_store _ _ _ _ H).
    + rewrite (healthCheckApp_unknown _ _ _ _ H). simpl.
      now rewrite update_unknown.
Qed.

Lemma step_lookup_same (m : Manager) (a : Action) :
  apps (step m a) !! actName a = actRecord a <$> apps m !! actName a.
Proof. rewrite step_update. apply lookup_update. Qed.

Lemma step_lookup_other (m : Manager) (a : Action) (appName : string) :
  actName a <> appName -> apps (step m a) !! appName = apps m !! appName.
Proof. intros H. rewrite step_update. now apply lookup_update_ne. Qed.

Lemma run_cons (m : Manager) (a : Action) (acts : list Action) :
  run m (a :: acts) = run (step m a) acts.
Proof. reflexivity. Qed.

(** A relation that every critical section respects on the record it finds
    holds between a record and what a whole run makes of it. *)
Lemma run_related (R : AppState -> AppState -> Prop) :
  (forall app, R app app) ->
  (forall a b c, R a b -> R b c -> R a c) ->
  (forall a app, R app (actRecord a app)) ->
  forall acts m appName app,
    apps m !! appName = Some app ->
    exists app', apps (run m acts) !! appName = Some app' /\ R app app'.
Proof.
  intros Hrefl Htrans Hact.
  induction acts as [|a acts IH]; intros m n app H.
  - exists app. split; [exact H | apply Hrefl].
  - rewrite run_cons. destruct (decide (actName a = n)) as [<-|Hne].
    + destruct (IH (step m a) (actName a) (actRecord a app)) as (app' & Hl & HR).
      { now rewrite step_lookup_same, H. }
      exists app'. split; [exact Hl|].
      eapply Htrans; [apply Hact | exact HR].
    + destruct (IH (step m a) n app) as (app' & Hl & HR).
      { now rewrite step_lookup_other. }
      now exists app'.
Qed.

Lemma run_unknown (acts : list Action) : forall m appName,
  apps m !! appName = None -> apps (run m acts) !! appName = None.
Proof.
  induction acts as [|a acts IH]; intros m n H; [exact H|].
  rewrite run_cons. apply IH.
  destruct (decide (actName a = n)) as [<-|Hne].
  - now rewrite step_lookup_same, H.
  - now rewrite step_lookup_other.
Qed.

(** A property of records that every critical section keeps holds in every
    state a run reaches. *)
Lemma run_invariant (P : AppState -> Prop) :
  (forall a app, P app -> P (actRecord a app)) ->
  forall acts m,
    (forall appName app, apps m !! appName = Some app -> P app) ->
    forall appName app, apps (run m acts) !! appName = Some app -> P app.
Proof.
  intros Hact. induction acts as [|a acts IH]; intros m Hm n app H.
  - now apply (Hm n).
  - rewrite run_cons in H. revert H. apply IH. clear n app.
    intros n app. destruct (decide (actName a = n)) as [<-|Hne].
    + rewrite step_lookup_same.
      destruct (apps m !! actName a) as [app0|] eqn:H0; [|discriminate].
      intros [= <-]. apply Hact. now apply (Hm (actName a)).
    + rewrite step_lookup_other by exact Hne. apply Hm.
Qed.

(** X1.  Critical sections that work on other apps leave a record as it is:
    whatever is started, stopped, captured, reaped or probed under other
    names, the record of [appName] after the run is the one before. *)
Theorem run_other_apps (m : Manager) (acts : list Action) (appName : string) :
  Forall (fun a => actName a <> appName) acts ->
  apps (run m acts) !! appName = apps m !! appName.
Proof.
  intros H. revert m. induction H as [|a acts Ha _ IH]; intros m.
  - reflexivity.
  - rewrite run_cons, IH. now apply step_lookup_other.
Qed.

Lemma run_other_apps_witness :
  apps (run mIdle [ActStart "Web" (Spawned 3 300);
                   ActOutput "Web" (numeral 7);
                   ActHealth "Web" (HttpResponse 503) 9%Z;
                   ActStop "Web" None]) !! "Echo" =
  apps mIdle !! "Echo".
Proof.
  apply run_other_apps.
  repeat constructor; discriminate.
Defined.



Lemma reclock_no_clock (t : Time) (a : Action) :
  readsClock a = false -> reclock t a = a.
Proof. now destruct a. Qed.






(** The order does matter to the times: the section that takes the lock
    first stores the earlier reading of the clock. *)
Example step_order_times :
  apps (step (step mIdle (ActHealth "Echo" (HttpResponse 200) 1%Z))
          (ActHealth "Web" (HttpResponse 200) 2%Z)) !! "Echo" <>
  apps (step (step mIdle (ActHealth "Web" (HttpResponse 200) 1%Z))
          (ActHealth "Echo" (HttpResponse 200) 2%Z)) !! "Echo".
Proof. vm_compute. discriminate. Qed.

Lemma actRecord_Config (a : Action) (app : AppState) :
  Config (actRecord a app) = Config app.
Proof.
  destruct a as [n os|n kill|n line|n cmd err|n get now]; simpl.
  - destruct os; try reflexivity. now destruct (Running app).
  - destruct kill; try reflexivity.
    now destruct (negb (Running app) || noLiveHandle app).
  - reflexivity.
  - unfold waiterWrite. now destruct (decide _).
  - unfold healthCheckRecord.
    destruct (Running app); [|reflexivity].
    now destruct (String.eqb _ _).
Qed.

Lemma run_Config (m : Manager) (acts : list Action) (appName : string)
  (app : AppState) :
  apps m !! appName = Some app ->
  exists app',
    apps (run m acts) !! appName = Some app' /\ Config app' = Config app.
Proof.
  intros H.
  destruct (run_related (fun x y => Config x = Config y))
    with (acts := acts) (m := m) (appName := appName) (app := app)
    as (app' & H' & Hc).
  - reflexivity.
  - intros a b c. congruence.
  - intros a x. symmetry. apply actRecord_Config.
  - exact H.
  - exists app'. split; [exact H' | congruence].
Qed.

Lemma run_dom (m : Manager) (acts : list Action) :
  dom (apps (run m acts)) = dom (apps m).
Proof.
  apply set_eq. intros n. rewrite !elem_of_dom. split.
  - intros [app' H']. destruct (apps m !! n) as [app|] eqn:H; [eauto|].
    rewrite (run_unknown acts m n H) in H'. discriminate.
  - intros [app H]. destruct (run_Config m acts n app H) as (app' & H' & _).
    eauto.
Qed.

(** X3.  No run creates or deletes a record or changes a configuration: the
    names of the map stay the same, and the record found under a name after
    the run has the configuration of the one found before. *)
Theorem run_keeps_records (m : Manager) (acts : list Action) :
  dom (apps (run m acts)) = dom (apps m) /\
  (forall appName app,
     apps m !! appName = Some app ->
     exists app',
       apps (run m acts) !! appName = Some app' /\ Config app' = Config app).
Proof.
  split.
  - apply run_dom.
  - intros appName app H. now apply run_Config.
Qed.

Lemma run_keeps_records_witness :
  exists app',
    apps (run mIdle [ActStart "Echo" (Spawned 1 100);
                     ActOutput "Echo" (numeral 7);
                     ActExit "Echo" cmdFirst (Some "exit status 1")])
      !! "Echo" = Some app' /\
    Config app' = Config (newAppState cfgEcho).
Proof.
  apply (proj2 (run_keeps_records mIdle _) "Echo" (newAppState cfgEcho)).
  vm_compute. reflexivity.
Defined.

Lemma liveWhenRunning_actRecord (a : Action) (app : AppState) :
  liveWhenRunning app -> liveWhenRunning (actRecord a app).
Proof.
  unfold liveWhenRunning. intros H.
  destruct a as [n os|n kill|n line|n cmd err|n get now]; simpl.
  - destruct os; try exact H.
    destruct (Running app) eqn:Hr; [now rewrite Hr | reflexivity].
  - destruct kill; try exact H.
    destruct (negb (Running app) || noLiveHandle app); [exact H | reflexivity].
  - exact H.
  - unfold waiterWrite. destruct (decide _); [reflexivity | exact H].
  - unfold healthCheckRecord.
    destruct (Running app) eqn:Hr; [|simpl; now rewrite Hr].
    destruct (String.eqb _ _); simpl; now rewrite Hr.
Qed.

(** X4.  In every state reached from [NewManager], under any interleaving of
    the critical sections, a record has [Running] set exactly when it holds a
    handle with a process.  So the two tests on the handle in [StopApp] never
    decide: it fails with NotRunning exactly when [Running] is false. *)
Theorem Running_iff_live_handle (configs : list AppConfig)
  (acts : list Action) (appName : string) (app : AppState) :
  apps (run (NewManager configs) acts) !! appName = Some app ->
  Running app = negb (noLiveHandle app) /\
  (forall kill,
     StopApp (run (NewManager configs) acts) appName kill =
       (run (NewManager configs) acts, Fail (ErrNotRunning appName)) <->
     Running app = false).
Proof.
  intros H.
  assert (Hlive : liveWhenRunning app).
  { revert H. apply (run_invariant liveWhenRunning liveWhenRunning_actRecord).
    intros n a Hn. apply NewManager_fresh in Hn as (cfg & _ & _ & ->).
    reflexivity. }
  split; [exact Hlive|]. intros kill. unfold StopApp. rewrite H.
  unfold liveWhenRunning in Hlive. rewrite Hlive.
  destruct (noLiveHandle app); simpl.
  - split; reflexivity.
  - destruct kill; split; discriminate.
Qed.

Lemma Running_iff_live_handle_witness :
  Running (mkAppState cfgEcho None false "Exited: exit status 1" 0%Z
             (numeral 7) [numeral 7]) =
  negb (noLiveHandle (mkAppState cfgEcho None false "Exited: exit status 1"
                        0%Z (numeral 7) [numeral 7])).
Proof.
  apply (proj1 (Running_iff_live_handle [cfgEcho; cfgWeb]
                  [ActStart "Echo" (Spawned 1 100);
                   ActOutput "Echo" (numeral 7);
                   ActExit "Echo" cmdFirst (Some "exit status 1")]
                  "Echo" _ ltac:(vm_compute; reflexivity))).
Defined.

(** ** Sequences of calls *)

(** X5.  After a successful [StopApp] the record has no handle, so the exit
    waiter of the launch that was killed (of any launch) writes nothing when
    it fires: the status stays "Stopped" whatever [cmd.Wait] reported. *)
Theorem StopApp_then_exitWaiter (m m' : Manager) (appName : string)
  (kill : KillOutcome) (u : unit) (cmd : exec_Cmd) (err : WaitOutcome) :
  StopApp m appName kill = (m', Ok u) ->
  exitWaiter m' appName cmd err = m' /\
  exists app',
    apps m' !! appName = Some app' /\
    HealthStatus app' = "Stopped" /\ Running app' = false.
Proof.
  intros HK.
  destruct (StopApp_Ok_inv m appName kill m' u HK)
    as (app & H & Hr & Hl & ->).
  rewrite (StopApp_killed m appName app H Hr Hl) in HK.
  injection HK as <-. split.
  - eapply exitWaiter_superseded; [apply lookup_store|]. discriminate.
  - eexists. split; [apply lookup_store|]. split; reflexivity.
Qed.

Lemma StopApp_then_exitWaiter_witness :
  exitWaiter mEchoDown "Echo" cmdFirst (Some "signal: killed") = mEchoDown /\
  exists app',
    apps mEchoDown !! "Echo" = Some app' /\
    HealthStatus app' = "Stopped" /\ Running app' = false.
Proof.
  apply (StopApp_then_exitWaiter mEchoUp mEchoDown "Echo" None tt).
  vm_compute. reflexivity.
Defined.

(** X6.  A successful call cannot be repeated: after a successful [StartApp]
    every further [StartApp] of the app fails with AlreadyRunning, whatever
    the spawn would give, and after a successful [StopApp] every further
    [StopApp] fails with NotRunning; both leave the store as it is. *)
Theorem repeated_call_fails (m m' : Manager) (appName : string) :
  (forall os tasks os',
     StartApp m appName os = (m', Ok tasks) ->
     StartApp m' appName os' = (m', Fail (ErrAlreadyRunning appName))) /\
  (forall kill u kill',
     StopApp m appName kill = (m', Ok u) ->
     StopApp m' appName kill' = (m', Fail (ErrNotRunning appName))).
Proof.
  split.
  - intros os tasks os' HS.
    destruct (StartApp_Ok_inv m appName os m' tasks HS)
      as (app & ptr & pid & H & Hr & ->).
    rewrite (StartApp_spawned m appName ptr pid app H Hr) in HS.
    injection HS as <- _.
    eapply StartApp_running; [apply lookup_store | reflexivity].
  - intros kill u kill' HK.
    destruct (StopApp_Ok_inv m appName kill m' u HK)
      as (app & H & Hr & Hl & ->).
    rewrite (StopApp_killed m appName app H Hr Hl) in HK.
    injection HK as <-.
    eapply StopApp_not_running; [apply lookup_store | now left].
Qed.

Lemma repeated_call_fails_witness :
  StartApp mEchoUp "Echo" (StartError "fork: resource unavailable") =
    (mEchoUp, Fail (ErrAlreadyRunning "Echo")) /\
  StopApp mEchoDown "Echo" killFailed =
    (mEchoDown, Fail (ErrNotRunning "Echo")).
Proof.
  split.
  - apply (proj1 (repeated_call_fails mIdle mEchoUp "Echo") (Spawned 1 100)
             [ReaderTask "Echo"; WaiterTask "Echo" cmdFirst]).
    vm_compute. reflexivity.
  - apply (proj2 (repeated_call_fails mEchoUp mEchoDown "Echo") None tt).
    vm_compute. reflexivity.
Defined.

(** X7.  The exit waiter that a successful [StartApp] launches tracks the
    handle that was stored.  When it fires before anything else touches the
    record, the record is not running and has no handle; [StopApp] then fails
    with NotRunning and the app can be started again. *)
Theorem StartApp_then_exit (m m' : Manager) (appName : string)
  (os : SpawnOutcome) (tasks : list Task) :
  StartApp m appName os = (m', Ok tasks) ->
  exists cmd,
    tasks = [ReaderTask appName; WaiterTask appName cmd] /\
    forall err,
      (exists app',
         apps (exitWaiter m' appName cmd err) !! appName = Some app' /\
         Running app' = false /\ Cmd app' = None /\
         HealthStatus app' = match err with
                             | Some cause => "Exited: " ++ cause
                             | None => "Stopped"
                             end) /\
      (forall kill,
         snd (StopApp (exitWaiter m' appName cmd err) appName kill) =
           Fail (ErrNotRunning appName)) /\
      (forall ptr pid,
         snd (StartApp (exitWaiter m' appName cmd err) appName
                (Spawned ptr pid)) =
           Ok [ReaderTask appName;
               WaiterTask appName {| cmd_ptr := ptr; Process := Some pid |}]).
Proof.
  intros HS.
  destruct (StartApp_Ok_inv m appName os m' tasks HS)
    as (app & ptr & pid & H & Hr & ->).
  rewrite (StartApp_spawned m appName ptr pid app H Hr) in HS.
  injection HS as <- <-.
  eexists. split; [reflexivity|]. intros err.
  set (m2 := exitWaiter _ _ _ _).
  assert (H2 : exists app',
             apps m2 !! appName = Some app' /\
             Running app' = false /\ Cmd app' = None /\
             HealthStatus app' = match err with
                                 | Some cause => "Exited: " ++ cause
                                 | None => "Stopped"
                                 end).
  { unfold m2, exitWaiter. rewrite lookup_update, lookup_store. simpl.
    rewrite waiterWrite_current by reflexivity.
    eexists. split; [reflexivity|]. simpl. auto. }
  destruct H2 as (app' & Hl & Hr' & Hc & Hh).
  split; [now exists app'|]. split.
  - intros kill.
    now rewrite (StopApp_not_running m2 appName kill app' Hl (or_introl Hr')).
  - intros ptr' pid'.
    now rewrite (StartApp_spawned m2 appName ptr' pid' app' Hl Hr').
Qed.

Lemma StartApp_then_exit_witness :
  exists cmd,
    [ReaderTask "Echo"; WaiterTask "Echo" cmdFirst] =
      [ReaderTask "Echo"; WaiterTask "Echo" cmd] /\
    forall err,
      (exists app',
         apps (exitWaiter mEchoUp "Echo" cmd err) !! "Echo" = Some app' /\
         Running app' = false /\ Cmd app' = None /\
         HealthStatus app' = match err with
                             | Some cause => "Exited: " ++ cause
                             | None => "Stopped"
                             end) /\
      (forall kill,
         snd (StopApp (exitWaiter mEchoUp "Echo" cmd err) "Echo" kill) =
           Fail (ErrNotRunning "Echo")) /\
      (forall ptr pid,
         snd (StartApp (exitWaiter mEchoUp "Echo" cmd err) "Echo"
                (Spawned ptr pid)) =
           Ok [ReaderTask "Echo";
               WaiterTask "Echo" {| cmd_ptr := ptr; Process := Some pid |}]).
Proof.
  apply (StartApp_then_exit mIdle mEchoUp "Echo" (Spawned 1 100)).
  vm_compute. reflexivity.
Defined.

(** X8.  An error of [StartApp] or [StopApp] is reported only for its cause:
    NotFound only for a name that is not in the map, AlreadyRunning only for
    a running record, a launch failure only for a known record that is not
    running, NotRunning only for a record that is not running or has no live
    handle, and a signal failure only for a running record with a live
    handle.  [StartApp] reports no other kind than the first three and
    [StopApp] none but NotFound and the last two. *)
Theorem error_causes (m : Manager) (appName : string) (e : Error) :
  (forall os, snd (StartApp m appName os) = Fail e ->
     (kind e = NotFound /\ apps m !! appName = None) \/
     (kind e = AlreadyRunning /\
      exists app, apps m !! appName = Some app /\ Running app = true) \/
     (kind e = LaunchFailure /\
      (forall ptr pid, os <> Spawned ptr pid) /\
      exists app, apps m !! appName = Some app /\ Running app = false)) /\
  (forall kill, snd (StopApp m appName kill) = Fail e ->
     (kind e = NotFound /\ apps m !! appName = None) \/
     (kind e = NotRunning /\
      exists app, apps m !! appName = Some app /\
                  (Running app = false \/ noLiveHandle app = true)) \/
     (kind e = SignalFailure /\ kill <> None /\
      exists app, apps m !! appName = Some app /\
                  Running app = true /\ noLiveHandle app = false)).
Proof.
  split.
  - intros os. unfold StartApp.
    destruct (apps m !! appName) as [app|] eqn:H.
    + destruct (Running app) eqn:Hr.
      * intros [= <-]. right. left. split; [reflexivity | eauto].
      * destruct os; intros [= <-]; right; right;
          (split; [reflexivity|]); (split; [discriminate | eauto]).
    + intros [= <-]. left. split; reflexivity.
  - intros kill. unfold StopApp.
    destruct (apps m !! appName) as [app|] eqn:H.
    + destruct (Running app) eqn:Hr; simpl.
      * destruct (noLiveHandle app) eqn:Hl.
        -- intros [= <-]. right. left. split; [reflexivity | eauto].
        -- destruct kill; intros [= <-]. right. right.
           split; [reflexivity|]. split; [discriminate | eauto].
      * intros [= <-]. right. left. split; [reflexivity | eauto].
    + intros [= <-]. left. split; reflexivity.
Qed.

Lemma error_causes_witness :
  (kind (ErrStart "Echo" "exec: not found") = NotFound /\
   apps mIdle !! "Echo" = None) \/
  (kind (ErrStart "Echo" "exec: not found") = AlreadyRunning /\
   exists app, apps mIdle !! "Echo" = Some app /\ Running app = true) \/
  (kind (ErrStart "Echo" "exec: not found") = LaunchFailure /\
   (forall ptr pid, StartError "exec: not found" <> Spawned ptr pid) /\
   exists app, apps mIdle !! "Echo" = Some app /\ Running app = false).
Proof.
  apply (proj1 (error_causes mIdle "Echo" (ErrStart "Echo" "exec: not found"))
           (StartError "exec: not found")).
  vm_compute. reflexivity.
Defined.

(** ** The reader goroutine *)

Lemma readerTask_run (reads : list ReadResult) : forall m appName,
  readerTask m appName reads = run m (ActOutput appName <$> chunksRead reads).
Proof.
  induction reads as [|r reads IH]; intros m n; [reflexivity|].
  simpl. destruct (0 <? length (read_data r))%nat, (read_err r); simpl;
    try reflexivity; apply IH.
Qed.

Lemma run_outputs (chunks : list (list byte)) : forall m appName app,
  apps m !! appName = Some app ->
  apps (run m (ActOutput appName <$> chunks)) !! appName =
    Some (fold_left (fun a line => captureWrite line a) chunks app).
Proof.
  induction chunks as [|c chunks IH]; intros m n app H; [exact H|].
  simpl. apply IH. now rewrite lookup_update, H.
Qed.

Lemma run_outputs_other (chunks : list (list byte)) : forall m appName other,
  appName <> other ->
  apps (run m (ActOutput appName <$> chunks)) !! other = apps m !! other.
Proof.
  induction chunks as [|c chunks IH]; intros m n other Hne; [reflexivity|].
  simpl. rewrite IH by exact Hne. now apply lookup_update_ne.
Qed.

Lemma captureWrite_all_fields (chunks : list (list byte)) : forall app,
  fold_left (fun a line => captureWrite line a) chunks app =
    {| Config := Config app;
       Cmd := Cmd app;
       Running := Running app;
       HealthStatus := HealthStatus app;
       HealthLastCheck := HealthLastCheck app;
       OutputBuffer := fold_left writeOutput chunks (OutputBuffer app);
       OutputChan := fold_left sendOutput chunks (OutputChan app) |}.
Proof.
  induction chunks as [|c chunks IH]; intros app; [now destruct app|].
  simpl. now rewrite IH.
Qed.

(** X9.  A run of the reader goroutine changes nothing but the buffer and the
    channel of its own record: the handle, [Running], the health fields and
    the configuration stay, and so does every other record.  The buffer and
    the channel are those obtained by writing and sending, in order, the
    non-empty chunks read up to the first read that reports an error. *)
Theorem readerTask_effect (m : Manager) (appName : string) (app : AppState)
  (reads : list ReadResult) :
  apps m !! appName = Some app ->
  apps (readerTask m appName reads) !! appName =
    Some {| Config := Config app;
            Cmd := Cmd app;
            Running := Running app;
            HealthStatus := HealthStatus app;
            HealthLastCheck := HealthLastCheck app;
            OutputBuffer :=
              fold_left writeOutput (chunksRead reads) (OutputBuffer app);
            OutputChan :=
              fold_left sendOutput (chunksRead reads) (OutputChan app) |} /\
  (forall other, other <> appName ->
     apps (readerTask m appName reads) !! other = apps m !! other).
Proof.
  intros H. rewrite readerTask_run. split.
  - rewrite (run_outputs _ _ _ _ H). now rewrite captureWrite_all_fields.
  - intros other Hne. apply run_outputs_other. congruence.
Qed.

Lemma readerTask_effect_witness :
  apps (readerTask mEchoUp "Echo" readsSample) !! "Echo" =
    Some (mkAppState cfgEcho (Some cmdFirst) true "Unknown" 0%Z
            (numeral 1 ++ numeral 2) [numeral 1; numeral 2]) /\
  apps (readerTask mEchoUp "Echo" readsSample) !! "Web" =
    apps mEchoUp !! "Web".
Proof.
  assert (H : apps mEchoUp !! "Echo" =
              Some (mkAppState cfgEcho (Some cmdFirst) true "Unknown" 0%Z
                      [] [])) by (vm_compute; reflexivity).
  destruct (readerTask_effect mEchoUp "Echo" _ readsSample H) as [Hs Ho].
  split.
  - rewrite Hs. vm_compute. reflexivity.
  - apply Ho. discriminate.
Defined.

Lemma readerTask_app (before rest : list ReadResult) : forall m appName,
  Forall (fun b => read_err b = false) before ->
  readerTask m appName (before ++ rest) =
    readerTask (readerTask m appName before) appName rest.
Proof.
  induction before as [|b before IH]; intros m n Hb; [reflexivity|].
  apply Forall_cons in Hb as [Hb Hrest].
  simpl. rewrite Hb. simpl. now apply IH.
Qed.

Lemma readerTask_failing_read (m : Manager) (appName : string)
  (r : ReadResult) (after : list ReadResult) :
  read_err r = true ->
  readerTask m appName (r :: after) =
    if (0 <? length (read_data r))%nat
    then update appName (captureWrite (read_data r)) m
    else m.
Proof. intros Hr. simpl. now rewrite Hr. Qed.

(** X10.  The reader stops at the first read that reports an error (end of
    stream included).  The bytes of that read are still written: after the
    reads before it, which report no error, its chunk is appended to the
    buffer and sent to the channel when it is not empty.  Whatever the pipe
    would give afterwards is never read.  A read of no bytes without an
    error changes nothing and the loop goes on. *)
Theorem readerTask_stops (m : Manager) (appName : string) :
  (forall before r after,
     read_err r = true ->
     readerTask m appName (before ++ r :: after) =
       readerTask m appName (before ++ [r])) /\
  (forall reads,
     readerTask m appName (mkReadResult [] false :: reads) =
       readerTask m appName reads) /\
  (forall before r after,
     Forall (fun b => read_err b = false) before ->
     read_err r = true ->
     readerTask m appName (before ++ r :: after) =
       if (0 <? length (read_data r))%nat
       then update appName (captureWrite (read_data r))
              (readerTask m appName before)
       else readerTask m appName before) /\
  (forall r after app,
     apps m !! appName = Some app ->
     read_err r = true -> 0 < length (read_data r) ->
     exists app',
       apps (readerTask m appName (r :: after)) !! appName = Some app' /\
       OutputBuffer app' = writeOutput (OutputBuffer app) (read_data r) /\
       OutputChan app' = sendOutput (OutputChan app) (read_data r)).
Proof.
  repeat apply conj.
  - intros before r after Hr. revert m.
    induction before as [|b before IH]; intros m; simpl.
    + now rewrite Hr.
    + destruct (negb (read_err b)); [apply IH | reflexivity].
  - reflexivity.
  - intros before r after Hb Hr.
    rewrite (readerTask_app before (r :: after) m appName Hb).
    now apply readerTask_failing_read.
  - intros r after app H Hr Hlen.
    rewrite (readerTask_failing_read m appName r after Hr).
    apply Nat.ltb_lt in Hlen. rewrite Hlen.
    rewrite lookup_update, H. simpl.
    eexists. split; [reflexivity|]. split; reflexivity.
Qed.

Lemma readerTask_stops_witness :
  readerTask mEchoUp "Echo" readsSample =
    readerTask mEchoUp "Echo"
      [mkReadResult (numeral 1) false; mkReadResult [] false;
       mkReadResult (numeral 2) true] /\
  readerTask mEchoUp "Echo" readsSample =
    update "Echo" (captureWrite (numeral 2))
      (readerTask mEchoUp "Echo"
         [mkReadResult (numeral 1) false; mkReadResult [] false]) /\
  exists app',
    apps (readerTask mEchoUp "Echo"
            [mkReadResult (numeral 2) true; mkReadResult (numeral 3) false])
      !! "Echo" = Some app' /\
    OutputBuffer app' = writeOutput [] (numeral 2) /\
    OutputChan app' = sendOutput [] (numeral 2).
Proof.
  repeat apply conj.
  - apply (proj1 (readerTask_stops mEchoUp "Echo")
             [mkReadResult (numeral 1) false; mkReadResult [] false]
             (mkReadResult (numeral 2) true)
             [mkReadResult (numeral 3) false]).
    reflexivity.
  - apply (proj1 (proj2 (proj2 (readerTask_stops mEchoUp "Echo")))
             [mkReadResult (numeral 1) false; mkReadResult [] false]
             (mkReadResult (numeral 2) true)
             [mkReadResult (numeral 3) false]).
    + repeat constructor.
    + reflexivity.
  - apply (proj2 (proj2 (proj2 (readerTask_stops mEchoUp "Echo")))
             (mkReadResult (numeral 2) true)
             [mkReadResult (numeral 3) false]
             (mkAppState cfgEcho (Some cmdFirst) true "Unknown" 0%Z [] [])).
    + vm_compute. reflexivity.
    + reflexivity.
    + vm_compute. lia.
Defined.

(** ** What the buffer and the channel hold *)

Lemma writeOutput_suffix (buf line : list byte) :
  writeOutput buf line `suffix_of` (buf ++ line)%list.
Proof.
  unfold writeOutput.
  destruct (OutputBufferCap <? length (buf ++ line)%list)%nat;
    [apply suffix_drop | reflexivity].
Qed.

Lemma writeOutput_length_ge (buf line : list byte) :
  Nat.min OutputBufferKeep (length (buf ++ line)%list)
    <= length (writeOutput buf line).
Proof.
  unfold writeOutput, OutputBufferCap, OutputBufferKeep.
  destruct (Nat.ltb_spec 4096 (length (buf ++ line)%list)) as [Hlt|Hle].
  - rewrite length_drop. lia.
  - lia.
Qed.

Lemma writeOutput_all_retains (chunks : list (list byte)) :
  forall buf stream,
    buf `suffix_of` stream ->
    Nat.min OutputBufferKeep (length stream) <= length buf ->
    fold_left writeOutput chunks buf `suffix_of` (stream ++ concat chunks)%list /\
    Nat.min OutputBufferKeep (length (stream ++ concat chunks)%list)
      <= length (fold_left writeOutput chunks buf).
Proof.
  induction chunks as [|c chunks IH]; intros buf stream Hs Hl.
  - simpl. now rewrite app_nil_r.
  - simpl. rewrite app_assoc. apply IH.
    + etransitivity; [apply writeOutput_suffix | now apply suffix_app].
    + pose proof (writeOutput_length_ge buf c) as Hge.
      rewrite !length_app in *. unfold OutputBufferKeep in *. lia.
Qed.

(** X11.  Whatever chunks are written to an empty buffer, the buffer holds
    the end of the captured stream, nothing else and in order, and it holds
    at least the last 2048 bytes of the stream (all of it while the stream
    is shorter). *)
Theorem OutputBuffer_retains (chunks : list (list byte)) :
  fold_left writeOutput chunks [] `suffix_of` concat chunks /\
  Nat.min OutputBufferKeep (length (concat chunks))
    <= length (fold_left writeOutput chunks []).
Proof.
  apply (writeOutput_all_retains chunks [] []); [reflexivity | simpl; lia].
Qed.

Lemma sendOutput_grows (ch : list (list byte)) (line : list byte) :
  ch `prefix_of` sendOutput ch line /\
  (OutputChanCap <= length ch -> sendOutput ch line = ch) /\
  (length ch <= OutputChanCap -> length (sendOutput ch line) <= OutputChanCap).
Proof.
  unfold sendOutput, OutputChanCap.
  destruct (Nat.ltb_spec (length ch) 100) as [Hlt|Hge].
  - split; [now apply prefix_app_r|]. split; [lia|].
    rewrite length_app. simpl. lia.
  - split; [reflexivity|]. split; [reflexivity | lia].
Qed.

(** X12.  No critical section receives from the channel, and [StartApp] does
    not replace it.  So whatever runs, the channel of a record only grows at
    its end, from the state reached after [NewManager] it never holds more
    than 100 chunks, and once it holds 100 it stays as it is: every later
    chunk is dropped, also after a restart. *)
Theorem OutputChan_fills_once (m : Manager) (acts : list Action)
  (appName : string) (app : AppState) :
  apps m !! appName = Some app ->
  exists app',
    apps (run m acts) !! appName = Some app' /\
    OutputChan app `prefix_of` OutputChan app' /\
    (OutputChanCap <= length (OutputChan app) ->
     OutputChan app' = OutputChan app) /\
    (length (OutputChan app) <= OutputChanCap ->
     length (OutputChan app') <= OutputChanCap).
Proof.
  intros H.
  destruct (run_related
              (fun x y =>
                 OutputChan x `prefix_of` OutputChan y /\
                 (OutputChanCap <= length (OutputChan x) ->
                  OutputChan y = OutputChan x) /\
                 (length (OutputChan x) <= OutputChanCap ->
                  length (OutputChan y) <= OutputChanCap)))
    with (acts := acts) (m := m) (appName := appName) (app := app)
    as (app' & Hl & HR).
  - intros x. split; [reflexivity|]. split; [reflexivity | auto].
  - intros x y z (Hp1 & Hf1 & Hb1) (Hp2 & Hf2 & Hb2).
    split; [now transitivity (OutputChan y)|]. split.
    + intros Hx. rewrite <- (Hf1 Hx). apply Hf2. now rewrite (Hf1 Hx).
    + auto.
  - intros a x.
    destruct a as [n os|n kill|n line|n cmd err|n get now]; simpl.
    + destruct os; try (split; [reflexivity|]; split; [reflexivity | auto]).
      destruct (Running x); simpl;
        (split; [reflexivity|]; split; [reflexivity | auto]).
    + destruct kill; try (split; [reflexivity|]; split; [reflexivity | auto]).
      destruct (negb (Running x) || noLiveHandle x); simpl;
        (split; [reflexivity|]; split; [reflexivity | auto]).
    + apply sendOutput_grows.
    + unfold waiterWrite. destruct (decide _); simpl;
        (split; [reflexivity|]; split; [reflexivity | auto]).
    + unfold healthCheckRecord.
      destruct (Running x); [destruct (String.eqb _ _)|]; simpl;
        (split; [reflexivity|]; split; [reflexivity | auto]).
  - exact H.
  - now exists app'.
Qed.

Lemma OutputChan_fills_once_witness :
  exists app',
    apps (run mEchoChatty [ActStop "Echo" None;
                           ActStart "Echo" (Spawned 2 200);
                           ActOutput "Echo" (numeral 8)]) !! "Echo"
      = Some app' /\
    repeat (numeral 7) 100 `prefix_of` OutputChan app' /\
    (OutputChanCap <= length (repeat (numeral 7) 100) ->
     OutputChan app' = repeat (numeral 7) 100) /\
    (length (repeat (numeral 7) 100) <= OutputChanCap ->
     length (OutputChan app') <= OutputChanCap).
Proof.
  apply (OutputChan_fills_once mEchoChatty _ "Echo"
           (mkAppState cfgEcho (Some cmdFirst) true "Unknown" 0%Z
              (concat (repeat (numeral 7) 150)) (repeat (numeral 7) 100))).
  vm_compute. reflexivity.
Defined.

(** ** Health checks *)

Lemma healthCheckAll_run (get : string -> HttpOutcome) (now : string -> Time)
  (snapshot : list string) : forall m,
  fst (healthCheckAll m snapshot get now) =
    run m ((fun appName => ActHealth appName (get appName) (now appName))
             <$> snapshot).
Proof.
  induction snapshot as [|n rest IH]; intros m; [reflexivity|].
  rewrite healthCheckAll_cons. simpl fst. rewrite IH. reflexivity.
Qed.

Lemma run_related_on (R : AppState -> AppState -> Prop) :
  (forall app, R app app) ->
  (forall a b c, R a b -> R b c -> R a c) ->
  forall acts,
    Forall (fun a => forall app, R app (actRecord a app)) acts ->
    forall m appName app,
      apps m !! appName = Some app ->
      exists app', apps (run m acts) !! appName = Some app' /\ R app app'.
Proof.
  intros Hrefl Htrans acts Hacts.
  induction Hacts as [|a acts Ha _ IH]; intros m n app H.
  - exists app. split; [exact H | apply Hrefl].
  - rewrite run_cons. destruct (decide (actName a = n)) as [<-|Hne].
    + destruct (IH (step m a) (actName a) (actRecord a app)) as (app' & Hl & HR).
      { now rewrite step_lookup_same, H. }
      exists app'. split; [exact Hl|].
      eapply Htrans; [apply Ha | exact HR].
    + destruct (IH (step m a) n app) as (app' & Hl & HR).
      { now rewrite step_lookup_other. }
      now exists app'.
Qed.

(** X13.  A tick of the health check, whatever names it visits and however
    often, starts and stops nothing: for every record the handle, [Running],
    the buffer, the channel and the configuration are after the tick what
    they were before. *)
Theorem healthCheckAll_frame (m : Manager) (snapshot : list string)
  (get : string -> HttpOutcome) (now : string -> Time)
  (appName : string) (app : AppState) :
  apps m !! appName = Some app ->
  exists app',
    apps (fst (healthCheckAll m snapshot get now)) !! appName = Some app' /\
    Config app' = Config app /\ Cmd app' = Cmd app /\
    Running app' = Running app /\
    OutputBuffer app' = OutputBuffer app /\
    OutputChan app' = OutputChan app.
Proof.
  intros H. rewrite healthCheckAll_run.
  destruct (run_related_on
              (fun x y =>
                 Config y = Config x /\ Cmd y = Cmd x /\
                 Running y = Running x /\
                 OutputBuffer y = OutputBuffer x /\
                 OutputChan y = OutputChan x))
    with (acts := (fun n => ActHealth n (get n) (now n)) <$> snapshot)
         (m := m) (appName := appName) (app := app)
    as (app' & Hl & HR).
  - intros x. repeat split.
  - intros x y z (? & ? & ? & ? & ?) (? & ? & ? & ? & ?).
    repeat split; congruence.
  - apply Forall_fmap, Forall_true. intros n x. simpl.
    unfold healthCheckRecord.
    destruct (Running x) eqn:Hr; [destruct (String.eqb _ _)|]; simpl;
      rewrite ?Hr; repeat split.
  - exact H.
  - now exists app'.
Qed.

Lemma healthCheckAll_frame_witness :
  exists app',
    apps (fst (healthCheckAll mWebUp ["Web"; "Echo"; "Web"] getOk nowAt))
      !! "Web" = Some app' /\
    Config app' = cfgWeb /\ Cmd app' = Some (mkCmd 3 (Some 300)) /\
    Running app' = true /\ OutputBuffer app' = [] /\ OutputChan app' = [].
Proof.
  apply (healthCheckAll_frame mWebUp ["Web"; "Echo"; "Web"] getOk nowAt "Web"
           (mkAppState cfgWeb (Some (mkCmd 3 (Some 300))) true "Unknown" 0%Z
              [] [])).
  vm_compute. reflexivity.
Defined.




Lemma string_app_length (s t : string) :
  String.length (s ++ t) = String.length s + String.length t.
Proof. induction s as [|c s IH]; simpl; [reflexivity | now rewrite IH]. Qed.

Lemma string_app_inv_tail (t : string) : forall s1 s2 : string,
  s1 ++ t = s2 ++ t -> s1 = s2.
Proof.
  induction s1 as [|c1 s1 IH]; intros [|c2 s2] H; simpl in H.
  - reflexivity.
  - apply (f_equal String.length) in H. simpl in H.
    rewrite !string_app_length in H. simpl in H. lia.
  - apply (f_equal String.length) in H. simpl in H.
    rewrite !string_app_length in H. simpl in H. lia.
  - injection H as -> H. now rewrite (IH s2 H).
Qed.

(** X15.  The status text tells what the probe saw: two outcomes of the GET
    with the same status are the same outcome.  In particular the status is
    "Healthy" for the status code 200 only. *)
Theorem probeStatus_inj (g1 g2 : HttpOutcome) :
  (probeStatus g1 = probeStatus g2 -> g1 = g2) /\
  (probeStatus g1 = "Healthy" <-> g1 = HttpResponse 200).
Proof.
  assert (Hdeg : forall c, (c =? 200)%Z = false ->
            probeStatus (HttpResponse c) = "Degraded (" ++ pretty c ++ ")").
  { intros c Hc. unfold probeStatus. now rewrite Hc. }
  assert (Herr : forall msg c, probeStatus (HttpError msg) <>
                               probeStatus (HttpResponse c)).
  { intros msg c. unfold probeStatus.
    destruct (c =? 200)%Z; cbv [String.append]; discriminate. }
  split.
  - destruct g1 as [m1|c1], g2 as [m2|c2].
    + cbv [probeStatus String.append]. now intros [= ->].
    + intros H. now apply Herr in H.
    + intros H. symmetry in H. now apply Herr in H.
    + destruct (Z.eqb_spec c1 200) as [->|H1], (Z.eqb_spec c2 200) as [->|H2].
      * reflexivity.
      * apply Z.eqb_neq in H2. rewrite (Hdeg c2 H2).
        cbv [probeStatus Z.eqb Z.compare Pos.compare Pos.compare_cont
             String.append]. discriminate.
      * apply Z.eqb_neq in H1. rewrite (Hdeg c1 H1).
        cbv [probeStatus Z.eqb Z.compare Pos.compare Pos.compare_cont
             String.append]. discriminate.
      * apply Z.eqb_neq in H1, H2. rewrite (Hdeg c1 H1), (Hdeg c2 H2).
        intros H.
        change ("Degraded (" ++ pretty c1 ++ ")")
          with (("Degraded (" ++ pretty c1) ++ ")") in H.
        change ("Degraded (" ++ pretty c2 ++ ")")
          with (("Degraded (" ++ pretty c2) ++ ")") in H.
        apply string_app_inv_tail in H.
        apply (inj (String.append "Degraded (")) in H.
        now apply (inj pretty) in H as ->.
  - split.
    + destruct g1 as [m1|c1].
      * cbv [probeStatus String.append]. discriminate.
      * destruct (Z.eqb_spec c1 200) as [->|H1]; [reflexivity|].
        apply Z.eqb_neq in H1. rewrite (Hdeg c1 H1).
        cbv [String.append]. discriminate.
    + intros ->. reflexivity.
Qed.

Lemma probeStatus_inj_witness :
  HttpResponse 204 = HttpResponse 204 /\
  probeStatus (HttpResponse 200) = "Healthy".
Proof.
  split.
  - apply (proj1 (probeStatus_inj (HttpResponse 204) (HttpResponse 204))).
    reflexivity.
  - apply (proj2 (probeStatus_inj (HttpResponse 200) (HttpResponse 200))).
    reflexivity.
Defined.

(** ** The output handler on every buffer *)

Lemma tailOutput_is_suffix (output : list byte) :
  tailOutput output `suffix_of` output.
Proof.
  destruct (Nat.le_gt_cases (length (Split output)) TailLimit)
    as [Hshort|Hlong].
  - now rewrite (tailOutput_short _ Hshort).
  - exists (Join (take (length (Split output) - TailLimit) (Split output))
              ++ [newline])%list.
    rewrite <- app_assoc. now apply tailOutput_suffix.
Qed.

(** X16.  For a known app the body of [getAppOutputHandler] is always an end
    piece of the buffer; it has as many lines as the buffer, but at most 50;
    and a buffer of at most 50 lines (an empty one too) is returned as it
    is, byte for byte. *)
Theorem getAppOutputHandler_body (mgr : Manager) (appName : string)
  (app : AppState) :
  apps mgr !! appName = Some app ->
  reply_body (getAppOutputHandler mgr appName) `suffix_of` OutputBuffer app /\
  length (Split (reply_body (getAppOutputHandler mgr appName))) =
    Nat.min TailLimit (length (Split (OutputBuffer app))) /\
  (length (Split (OutputBuffer app)) <= TailLimit ->
   reply_body (getAppOutputHandler mgr appName) = OutputBuffer app).
Proof.
  intros H. unfold getAppOutputHandler. rewrite H. cbn [reply_body].
  destruct (Nat.le_gt_cases (length (Split (OutputBuffer app))) TailLimit)
    as [Hshort|Hlong].
  - rewrite (tailOutput_short _ Hshort).
    split; [reflexivity|]. split; [|reflexivity].
    unfold TailLimit in *. lia.
  - split; [|split].
    + apply tailOutput_is_suffix.
    + rewrite (tailOutput_Split _ Hlong), length_drop.
      unfold TailLimit in *. lia.
    + unfold TailLimit in *. lia.
Qed.

Lemma getAppOutputHandler_body_witness :
  reply_body (getAppOutputHandler mEchoDown "Echo") `suffix_of` [] /\
  length (Split (reply_body (getAppOutputHandler mEchoDown "Echo"))) =
    Nat.min TailLimit 1 /\
  (1 <= TailLimit -> reply_body (getAppOutputHandler mEchoDown "Echo") = []).
Proof.
  apply (getAppOutputHandler_body mEchoDown "Echo"
           (mkAppState cfgEcho None false "Stopped" 0%Z [] [])).
  vm_compute. reflexivity.
Defined.

(** ** Paths *)

Lemma substring_all (s : string) : String.substring 0 (String.length s) s = s.
Proof. induction s as [|c s IH]; simpl; [reflexivity | now rewrite IH]. Qed.

Lemma substring_after (p s : string) :
  String.substring (String.length p) (String.length s) (p ++ s) = s.
Proof. induction p as [|c p IH]; simpl; [apply substring_all | exact IH]. Qed.

Lemma pathAfter_prefix (p s : string) :
  pathAfter (String.length p) (p ++ s) = Some s.
Proof.
  unfold pathAfter. rewrite string_app_length.
  replace (String.length p + String.length s - String.length p)
    with (String.length s) by lia.
  rewrite substring_after.
  destruct (Nat.leb_spec (String.length p)
              (String.length p + String.length s)); [reflexivity | lia].
Qed.

Lemma pathAfter_short (n : nat) (path : string) :
  String.length path < n -> pathAfter n path = None.
Proof.
  intros H. unfold pathAfter.
  destruct (Nat.leb_spec n (String.length path)); [lia | reflexivity].
Qed.

(** X17.  On the path "/api/output/<name>" the output handler works on
    <name>; it answers 404 with the text "App not found" exactly when that
    name is not in the map, and 200 otherwise.  On a path shorter than the
    prefix the slice expression panics and there is no answer. *)
Theorem getAppOutputRoute_contract (mgr : Manager) :
  (forall appName,
     getAppOutputRoute mgr ("/api/output/" ++ appName) =
       Some (getAppOutputHandler mgr appName)) /\
  (forall appName,
     apps mgr !! appName = None <->
     getAppOutputHandler mgr appName = httpError "App not found" 404) /\
  (forall appName,
     is_Some (apps mgr !! appName) <->
     reply_status (getAppOutputHandler mgr appName) = 200) /\
  (forall path,
     String.length path < String.length "/api/output/" ->
     getAppOutputRoute mgr path = None).
Proof.
  repeat apply conj.
  - intros n. unfold getAppOutputRoute. now rewrite pathAfter_prefix.
  - intros n. unfold getAppOutputHandler.
    destruct (apps mgr !! n); split; try reflexivity; discriminate.
  - intros n. unfold getAppOutputHandler.
    destruct (apps mgr !! n); split; try reflexivity; try discriminate; eauto;
      try (intros [? [=]]).
  - intros path H. unfold getAppOutputRoute. now rewrite pathAfter_short.
Qed.

Lemma getAppOutputRoute_contract_witness :
  getAppOutputHandler mIdle "Nope" = httpError "App not found" 404 /\
  reply_status (getAppOutputHandler mIdle "Echo") = 200 /\
  getAppOutputRoute mIdle "/api/output" = None.
Proof.
  repeat apply conj.
  - apply (proj1 (proj2 (getAppOutputRoute_contract mIdle))).
    vm_compute. reflexivity.
  - apply (proj1 (proj2 (proj2 (getAppOutputRoute_contract mIdle)))).
    eexists. vm_compute. reflexivity.
  - apply (proj2 (proj2 (proj2 (getAppOutputRoute_contract mIdle)))).
    simpl. lia.
Defined.

(** ** Construction, again *)

Lemma filter_Name_unique (configs : list AppConfig) (cfg : AppConfig) :
  NoDup (Name <$> configs) -> cfg ∈ configs ->
  filter (fun c => Name c = Name cfg) configs = [cfg].
Proof.
  induction configs as [|c cs IH]; intros Hnd Hin.
  - now apply elem_of_nil in Hin.
  - rewrite fmap_cons in Hnd. apply NoDup_cons in Hnd as [Hc Hnd].
    assert (Hothers : Forall (fun c' => Name c' <> Name c) cs).
    { apply Forall_forall. intros c' Hc' Heq. apply Hc. rewrite <- Heq.
      apply list_elem_of_fmap. now exists c'. }
    apply elem_of_cons in Hin as [->|Hin].
    + rewrite filter_cons_True by reflexivity.
      now rewrite (filter_Name_none _ _ Hothers).
    + rewrite filter_cons_False.
      * now apply IH.
      * intros Heq. rewrite Forall_forall in Hothers.
        now apply (Hothers cfg Hin).
Qed.

Lemma NewManager_dom (configs : list AppConfig) :
  dom (apps (NewManager configs)) = list_to_set (Name <$> configs).
Proof.
  apply set_eq. intros n.
  rewrite elem_of_dom, elem_of_list_to_set, list_elem_of_fmap. split.
  - intros [app H]. apply NewManager_fresh in H as (cfg & Hin & Hn & _).
    now exists cfg.
  - intros (cfg & -> & Hin). rewrite NewManager_lookup.
    destruct (last (filter (fun c => Name c = Name cfg) configs)) eqn:Hl;
      [now eexists|].
    apply last_None in Hl.
    assert (Hf : cfg ∈ filter (fun c => Name c = Name cfg) configs)
      by now apply list_elem_of_filter.
    rewrite Hl in Hf. now apply elem_of_nil in Hf.
Qed.

(** X18.  When the names of the configurations are all different,
    [NewManager] keeps every one of them: each configuration is found under
    its name, with a record that is not running, has no handle, the status
    "Unknown" and empty output, and the map has as many records as there are
    configurations. *)
Theorem NewManager_unique_names (configs : list AppConfig) :
  NoDup (Name <$> configs) ->
  (forall cfg, cfg ∈ configs ->
     apps (NewManager configs) !! Name cfg = Some (newAppState cfg)) /\
  size (apps (NewManager configs)) = length configs.
Proof.
  intros Hnd. split.
  - intros cfg Hin. rewrite NewManager_lookup.
    now rewrite (filter_Name_unique configs cfg Hnd Hin).
  - rewrite <- size_dom, NewManager_dom.
    rewrite size_list_to_set by exact Hnd. apply length_fmap.
Qed.

Lemma NewManager_unique_names_witness :
  (forall cfg, cfg ∈ [cfgEcho; cfgWeb] ->
     apps (NewManager [cfgEcho; cfgWeb]) !! Name cfg = Some (newAppState cfg)) /\
  size (apps (NewManager [cfgEcho; cfgWeb])) = 2.
Proof.
  apply (NewManager_unique_names [cfgEcho; cfgWeb]).
  apply NoDup_cons. split.
  - intros H. apply list_elem_of_singleton in H. discriminate.
  - apply NoDup_singleton.
Defined.

(** X19.  The names of the map are those of the configurations, and in every
    state reached from [NewManager] a record is stored under the name of its
    own configuration, which is one of the list. *)
Theorem NewManager_names (configs : list AppConfig) :
  dom (apps (NewManager configs)) = list_to_set (Name <$> configs) /\
  (forall acts appName app,
     apps (run (NewManager configs) acts) !! appName = Some app ->
     Name (Config app) = appName /\ Config app ∈ configs).
Proof.
  split; [apply NewManager_dom|].
  intros acts n app H.
  assert (Hin : n ∈ dom (apps (NewManager configs))).
  { rewrite <- (run_dom _ acts). apply elem_of_dom. eauto. }
  apply elem_of_dom in Hin as [app0 H0].
  destruct (run_Config _ acts n app0 H0) as (app' & H' & Hc).
  rewrite H in H'. injection H' as <-.
  apply NewManager_fresh in H0 as (cfg & Hcin & Hn & ->).
  rewrite Hc. simpl. now split.
Qed.

Lemma NewManager_names_witness :
  Name cfgEcho = "Echo" /\ cfgEcho ∈ [cfgEcho; cfgWeb].
Proof.
  apply (proj2 (NewManager_names [cfgEcho; cfgWeb])
           [ActStart "Echo" (Spawned 1 100)] "Echo"
           (mkAppState cfgEcho (Some cmdFirst) true "Unknown" 0%Z [] [])).
  vm_compute. reflexivity.
Defined.

(** ** The control handler *)

Ltac status_cases :=
  repeat match goal with
         | |- _ /\ _ => split
         | |- _ <-> _ => split; intros
         | H : _ /\ _ |- _ => destruct H
         | H : _ \/ _ |- _ => destruct H
         | H : exists _, _ |- _ => destruct H
         end;
  cbn in *; try lia; try congruence; try discriminate; eauto 10.

(** X20.  On the path "/api/app/<name>" the control handler answers 405 for
    every method but POST, 400 for a POST whose action is neither "start" nor
    "stop", 500 when [StartApp] or [StopApp] of <name> returns an error, and
    200 when it succeeds; there is no other case. *)
Theorem controlAppHandler_status (mgr : Manager)
  (method appName action : string) (os : SpawnOutcome) (kill : KillOutcome) :
  exists rep,
    ctl_reply (controlAppHandler mgr method ("/api/app/" ++ appName) action
                 os kill) = Some rep /\
    (reply_status rep = 405 <-> method <> "POST") /\
    (reply_status rep = 400 <->
       method = "POST" /\ action <> "start" /\ action <> "stop") /\
    (reply_status rep = 500 <->
       method = "POST" /\
       ((action = "start" /\
         exists e, snd (StartApp mgr appName os) = Fail e) \/
        (action = "stop" /\
         exists e, snd (StopApp mgr appName kill) = Fail e))) /\
    (reply_status rep = 200 <->
       method = "POST" /\
       ((action = "start" /\
         exists tasks, snd (StartApp mgr appName os) = Ok tasks) \/
        (action = "stop" /\
         exists u, snd (StopApp mgr appName kill) = Ok u))).
Proof.
  unfold controlAppHandler. rewrite pathAfter_prefix.
  destruct (String.eqb_spec method "POST") as [->|Hm].
  - destruct (String.eqb_spec action "start") as [->|Ha].
    + destruct (StartApp mgr appName os) as [m' [tasks|e]];
        eexists; (split; [reflexivity|]); status_cases.
    + destruct (String.eqb_spec action "stop") as [->|Hb].
      * destruct (StopApp mgr appName kill) as [m' [u|e]];
          eexists; (split; [reflexivity|]); status_cases.
      * eexists; (split; [reflexivity|]); status_cases.
  - eexists; (split; [reflexivity|]); status_cases.
Qed.

(** X21.  Whatever the request, the control handler changes the store and
    launches goroutines only when it answers 200: with any other answer, and
    when it panics on a short path, the store is the one it was given.  When
    it answers 200 on "/api/app/<name>", the record of <name> is running
    after "start" and not running after "stop". *)
Theorem controlAppHandler_effect (mgr : Manager)
  (method path action : string) (os : SpawnOutcome) (kill : KillOutcome) :
  ((forall rep,
      ctl_reply (controlAppHandler mgr method path action os kill) = Some rep ->
      reply_status rep <> 200) ->
   ctl_store (controlAppHandler mgr method path action os kill) = mgr /\
   ctl_tasks (controlAppHandler mgr method path action os kill) = []) /\
  (forall appName rep,
     path = "/api/app/" ++ appName ->
     ctl_reply (controlAppHandler mgr method path action os kill) = Some rep ->
     reply_status rep = 200 ->
     exists app',
       apps (ctl_store (controlAppHandler mgr method path action os kill))
         !! appName = Some app' /\
       Running app' = String.eqb action "start").
Proof.
  split.
  - unfold controlAppHandler.
    destruct (pathAfter (String.length "/api/app/") path) as [n|];
      [|now split].
    destruct (String.eqb method "POST"); [|now split].
    destruct (String.eqb action "start").
    + pose proof (StartApp_Fail_unchanged mgr n os) as Hf.
      destruct (StartApp mgr n os) as [m' [tasks|e]]; cbn.
      * intros H. now destruct (H _ eq_refl).
      * intros _. split; [now apply (Hf e) | reflexivity].
    + destruct (String.eqb action "stop"); [|now split].
      pose proof (StopApp_Fail_unchanged mgr n kill) as Hf.
      destruct (StopApp mgr n kill) as [m' [u|e]]; cbn.
      * intros H. now destruct (H _ eq_refl).
      * intros _. split; [now apply (Hf e) | reflexivity].
  - intros n rep ->. unfold controlAppHandler. rewrite pathAfter_prefix.
    destruct (String.eqb method "POST"); [|intros [= <-]; cbn; lia].
    destruct (String.eqb action "start").
    + destruct (StartApp mgr n os) as [m' [tasks|e]] eqn:HS; cbn;
        [|intros [= <-]; cbn; lia].
      intros _ _.
      destruct (StartApp_Ok_inv mgr n os m' tasks HS)
        as (app & ptr & pid & H & Hr & ->).
      rewrite (StartApp_spawned mgr n ptr pid app H Hr) in HS.
      injection HS as <- _. eexists. split; [apply lookup_store|reflexivity].
    + destruct (String.eqb action "stop"); [|intros [= <-]; cbn; lia].
      destruct (StopApp mgr n kill) as [m' [u|e]] eqn:HK; cbn;
        [|intros [= <-]; cbn; lia].
      intros _ _.
      destruct (StopApp_Ok_inv mgr n kill m' u HK)
        as (app & H & Hr & Hl & ->).
      rewrite (StopApp_killed mgr n app H Hr Hl) in HK.
      injection HK as <-. eexists. split; [apply lookup_store|reflexivity].
Qed.

Lemma controlAppHandler_effect_witness :
  (ctl_store (controlAppHandler mEchoUp "GET" "/api/app/Echo" "stop"
                (Spawned 2 200) None) = mEchoUp /\
   ctl_tasks (controlAppHandler mEchoUp "GET" "/api/app/Echo" "stop"
                (Spawned 2 200) None) = []) /\
  exists app',
    apps (ctl_store (controlAppHandler mEchoUp "POST" "/api/app/Echo" "stop"
                       (Spawned 2 200) None)) !! "Echo" = Some app' /\
    Running app' = String.eqb "stop" "start".
Proof.
  split.
  - apply (proj1 (controlAppHandler_effect mEchoUp "GET" "/api/app/Echo"
                    "stop" (Spawned 2 200) None)).
    intros rep H. vm_compute in H. injection H as <-. simpl. lia.
  - apply (proj2 (controlAppHandler_effect mEchoUp "POST" "/api/app/Echo"
                    "stop" (Spawned 2 200) None)
             "Echo" (controlReply "stop" "Echo" None)).
    + reflexivity.
    + vm_compute. reflexivity.
    + reflexivity.
Defined.

Example controlAppHandler_unknown_app :
  ctl_reply (controlAppHandler mIdle "POST" "/api/app/Nope" "start"
               (Spawned 1 100) None) =
    Some (httpError "Failed to start app Nope: app Nope not found" 500).
Proof. vm_compute. reflexivity. Qed.

(** ** Output across start and stop *)

(** X22.  In every state reached from [NewManager] the output handler
    answers with at most 4096 bytes for a known app. *)
Theorem getAppOutputHandler_bounded (configs : list AppConfig)
  (acts : list Action) (appName : string) (app : AppState) :
  apps (run (NewManager configs) acts) !! appName = Some app ->
  length (reply_body
            (getAppOutputHandler (run (NewManager configs) acts) appName))
    <= OutputBufferCap.
Proof.
  intros H. unfold getAppOutputHandler. rewrite H. cbn [reply_body].
  pose proof (suffix_length _ _ (tailOutput_is_suffix (OutputBuffer app)))
    as Hs.
  pose proof (buffersBounded_run acts (NewManager configs)
                (buffersBounded_NewManager configs) appName app H).
  lia.
Qed.

Lemma getAppOutputHandler_bounded_witness :
  length (reply_body
            (getAppOutputHandler
               (run (NewManager [cfgEcho; cfgWeb])
                  [ActStart "Echo" (Spawned 1 100);
                   ActOutput "Echo" bufNearCap;
                   ActOutput "Echo" chunkOver]) "Echo"))
    <= OutputBufferCap.
Proof.
  apply (getAppOutputHandler_bounded [cfgEcho; cfgWeb] _ "Echo"
           (mkAppState cfgEcho (Some cmdFirst) true "Unknown" 0%Z
              (writeOutput bufNearCap chunkOver) [bufNearCap; chunkOver])).
  vm_compute. reflexivity.
Defined.

(** X23.  A successful [StartApp] discards the output of the previous run:
    right after it the output handler answers with an empty body.  A
    successful [StopApp] keeps the output: the handler answers after it what
    it answered before. *)
Theorem output_across_calls (m m' : Manager) (appName : string) :
  (forall os tasks,
     StartApp m appName os = (m', Ok tasks) ->
     getAppOutputHandler m' appName =
       {| reply_status := 200; reply_body := [] |}) /\
  (forall kill u,
     StopApp m appName kill = (m', Ok u) ->
     getAppOutputHandler m' appName = getAppOutputHandler m appName).
Proof.
  split.
  - intros os tasks HS.
    destruct (StartApp_Ok_inv m appName os m' tasks HS)
      as (app & ptr & pid & H & Hr & ->).
    rewrite (StartApp_spawned m appName ptr pid app H Hr) in HS.
    injection HS as <- _.
    unfold getAppOutputHandler. now rewrite lookup_store.
  - intros kill u HK.
    destruct (StopApp_Ok_inv m appName kill m' u HK)
      as (app & H & Hr & Hl & ->).
    rewrite (StopApp_killed m appName app H Hr Hl) in HK.
    injection HK as <-.
    unfold getAppOutputHandler. now rewrite lookup_store, H.
Qed.

Lemma output_across_calls_witness :
  getAppOutputHandler
    (fst (StartApp (fst (StopApp mEchoSixty "Echo" None)) "Echo"
            (Spawned 2 200))) "Echo" =
    {| reply_status := 200; reply_body := [] |} /\
  getAppOutputHandler (fst (StopApp mEchoSixty "Echo" None)) "Echo" =
    getAppOutputHandler mEchoSixty "Echo".
Proof.
  split.
  - apply (proj1 (output_across_calls (fst (StopApp mEchoSixty "Echo" None))
                    _ "Echo") (Spawned 2 200)
             [ReaderTask "Echo"; WaiterTask "Echo" (mkCmd 2 (Some 200))]).
    vm_compute. reflexivity.
  - apply (proj2 (output_across_calls mEchoSixty _ "Echo") None tt).
    vm_compute. reflexivity.
Defined.
